(** * LuaCpp/Details/Class.hpp: binding a native class into the Lua runtime

    A shallow embedding of [lpp::Class<CppClass>] together with the part of
    the Lua C API it calls, and the properties of the registration
    mechanism proved over it.

    Conventions.
    - The Lua stack is a list whose head is the top of the stack, so the
      index [-1] is the head, [-2] the next element, and so on.
    - Tables and userdata blocks are reference objects: a Lua value holds a
      reference, the contents live in a heap that is part of the state.
    - Every operation is a function [world -> option (A * world)].  [None]
      stands for every outcome that is not a normal return (undefined
      behaviour of the C API or of C++, a Lua error, an exception leaving
      the function).
    - The constructor is written a second time, call by call, as a run that
      keeps the state in which a call that does not return leaves the
      program; the constructor as an operation is the returning part of that
      run. *)

From stdpp Require Import gmap strings list.
From Stdlib Require Import ZArith.

Local Open Scope Z_scope.

(** ** Native values and types *)

(** The C++ types that occur in signatures. *)
Inductive ctype :=
| TVoid
| TInt
| TBool
| TString
| TClass (id : nat)
| TConst (t : ctype)
| TPtr (t : ctype).

(** [std::is_const<T>::value] *)
Definition is_const (t : ctype) : bool :=
  match t with TConst _ => true | _ => false end.

Inductive cpp_value :=
| VVoid
| VInt (z : Z)
| VBool (b : bool)
| VString (s : string)
| VPtr (addr : nat).

(** The state of a native instance: its data members, by offset. *)
Abbreviation object := (gmap nat cpp_value).

(** Native memory: the objects that are alive, by address. *)
Abbreviation memory := (gmap nat object).

(** A [std::function]: called with its arguments on the native memory. *)
Definition std_function : Type :=
  list cpp_value -> memory -> option (cpp_value * memory).

(** A pointer to a non-const member function, returning [Ret] and taking
    [Args...]. *)
Record method := {
  m_ret : ctype;
  m_args : list ctype;
  m_body : object -> list cpp_value -> option (cpp_value * object)
}.

(** A pointer to a const member function.  Its body is given the instance
    and returns it as well: a const method may still write the members that
    are declared mutable. *)
Record const_method := {
  cm_ret : ctype;
  cm_args : list ctype;
  cm_body : object -> list cpp_value -> option (cpp_value * object)
}.

(** [T CppClass::*t] *)
Record field := {
  f_type : ctype;
  f_offset : nat
}.

(** What the pack [Mems...] holds after each name. *)
Inductive member :=
| MemFunc (func : method)
| MemConstFunc (func : const_method)
| MemVar (t : field).

(** The template argument [CppClass]: its identity, its size, its
    constructors (chosen by the argument list) and its copy constructor. *)
Record cpp_class := {
  class_id : nat;
  class_sizeof : N;
  class_construct : list cpp_value -> option object;
  class_copy : object -> object
}.

(** [CppFunction<Ret, Args...>]: the signature it was instantiated with and
    the callable it holds. *)
Record CppFunction := {
  fn_ret : ctype;
  fn_params : list ctype;
  fn_call : std_function
}.

(** ** Lua values and state *)

(** The C functions this file hands to Lua: [&newInstance<CstrArgs...>] of
    [Class<CppClass>]. *)
Inductive cfunction :=
| newInstance_ptr (T : cpp_class) (CstrArgs : list ctype).

Inductive lua_value :=
| LNil
| LBoolean (b : bool)
| LNumber (z : Z)
| LString (s : string)
| LTable (r : nat)
| LCFunction (f : cfunction)
| LClosure (f : CppFunction)
| LUserdata (addr : nat).

Abbreviation table := (gmap string lua_value).

Record udata := {
  ud_size : N;
  ud_meta : lua_value
}.

(** The static data members of [Class<CppClass>]. *)
Record class_statics := {
  className : string;
  functions : option nat;
  valid : bool
}.

(** Lines 216-223: the initialisers of the static data members. *)
Definition statics_init : class_statics :=
  {| className := EmptyString; functions := None; valid := false |}.

(** The whole program state: the Lua state at hand ([stack], [registry],
    [tables], [userdata]), which is what the [lua_State*] of every call
    points to, and what belongs to the process: the static members of every
    instantiation of [Class], the [Functions] objects of the host, and the
    native memory. *)
Record world := {
  stack : list lua_value;
  registry : gmap string lua_value;
  tables : gmap nat table;
  userdata : gmap nat udata;
  statics : gmap nat class_statics;
  stores : gmap nat (list CppFunction);
  mem : memory
}.

Definition set_stack (s : list lua_value) (w : world) : world :=
  {| stack := s; registry := registry w; tables := tables w;
     userdata := userdata w; statics := statics w; stores := stores w;
     mem := mem w |}.

Definition set_tables (t : gmap nat table) (w : world) : world :=
  {| stack := stack w; registry := registry w; tables := t;
     userdata := userdata w; statics := statics w; stores := stores w;
     mem := mem w |}.

Definition set_userdata (u : gmap nat udata) (w : world) : world :=
  {| stack := stack w; registry := registry w; tables := tables w;
     userdata := u; statics := statics w; stores := stores w;
     mem := mem w |}.

Definition set_statics (s : gmap nat class_statics) (w : world) : world :=
  {| stack := stack w; registry := registry w; tables := tables w;
     userdata := userdata w; statics := s; stores := stores w;
     mem := mem w |}.

Definition set_stores (s : gmap nat (list CppFunction)) (w : world) : world :=
  {| stack := stack w; registry := registry w; tables := tables w;
     userdata := userdata w; statics := statics w; stores := s;
     mem := mem w |}.

Definition set_mem (m : memory) (w : world) : world :=
  {| stack := stack w; registry := registry w; tables := tables w;
     userdata := userdata w; statics := statics w; stores := stores w;
     mem := m |}.

(** The contents of the table behind a reference. *)
Definition table_at (w : world) (r : nat) : table :=
  default ∅ (tables w !! r).

(** The static members of [Class<T>]. *)
Definition statics_of (w : world) (T : cpp_class) : class_statics :=
  default statics_init (statics w !! class_id T).

(** ** The monad of operations *)

Definition M (A : Type) : Type := world -> option (A * world).

Definition ret {A} (a : A) : M A := fun w => Some (a, w).

Definition bind {A B} (m : M A) (k : A -> M B) : M B :=
  fun w => match m w with
           | Some (a, w') => k a w'
           | None => None
           end.

Definition fail {A} : M A := fun _ => None.

Declare Scope op_scope.
Delimit Scope op_scope with op.
Notation "x <- m ;; k" := (bind m (fun x => k))
  (at level 100, m at next level, k at level 200, right associativity,
   only parsing) : op_scope.
Notation "m ;; k" := (bind m (fun _ => k))
  (at level 100, k at level 200, right associativity, only parsing) : op_scope.
Local Open Scope op_scope.

(** ** The Lua C API, as far as this file uses it *)

(** [std::string::c_str] read as a C string: up to the first NUL. *)
Fixpoint c_str (s : string) : string :=
  match s with
  | EmptyString => EmptyString
  | String c s' =>
      if Ascii.eqb c Ascii.zero then EmptyString else String c (c_str s')
  end.

(** The value at an acceptable index: negative from the top, positive from
    the bottom of the frame. *)
Definition index (idx : Z) (stk : list lua_value) : option lua_value :=
  if idx <? 0 then stk !! Z.to_nat (- idx - 1)
  else if 0 <? idx then rev stk !! Z.to_nat (idx - 1)
  else None.

Definition push (v : lua_value) : M unit :=
  fun w => Some (tt, set_stack (v :: stack w) w).

Definition lua_pushstring (s : string) : M unit := push (LString s).

Definition lua_pushcfunction (f : cfunction) : M unit := push (LCFunction f).

Definition lua_pushvalue (idx : Z) : M unit :=
  fun w => match index idx (stack w) with
           | Some v => push v w
           | None => None
           end.

Definition lua_pop (n : nat) : M unit :=
  fun w => if (n <=? length (stack w))%nat
           then Some (tt, set_stack (drop n (stack w)) w)
           else None.

(** [luaL_getmetatable]: pushes the registry entry of the name, nil when
    there is none.  It never creates a table. *)
Definition luaL_getmetatable (tname : string) : M unit :=
  fun w => push (default LNil (registry w !! tname)) w.

(** [lua_rawset(L, idx)]: [t[k] = v] without metamethods, for [t] at [idx],
    [v] on top and [k] below it; pops both.  Assigning nil removes the
    key.  The API requires a table at [idx]; the keys this file pushes
    are strings. *)
Definition lua_rawset (idx : Z) : M unit :=
  fun w => match stack w with
           | v :: LString k :: rest =>
               match index idx (stack w) with
               | Some (LTable r) =>
                   let t := table_at w r in
                   let t' := match v with
                             | LNil => delete k t
                             | _ => <[k := v]> t
                             end in
                   Some (tt, set_stack rest (set_tables (<[r := t']> (tables w)) w))
               | _ => None
               end
           | _ => None
           end.

(** [lua_newuserdata]: a fresh block of the requested size, pushed on the
    stack; its address is returned. *)
Definition lua_newuserdata (size : N) : M nat :=
  fun w =>
    let a := fresh (dom (userdata w) ∪ dom (mem w)) in
    Some (a, set_stack (LUserdata a :: stack w)
               (set_userdata (<[a := {| ud_size := size; ud_meta := LNil |}]>
                                (userdata w)) w)).

(** [luaL_setmetatable]: the registry entry of the name becomes the
    metatable of the value on top of the stack (here always a userdata
    block); a nil entry clears the metatable. *)
Definition luaL_setmetatable (tname : string) : M unit :=
  fun w =>
    match stack w with
    | LUserdata a :: _ =>
        match userdata w !! a, default LNil (registry w !! tname) with
        | Some u, (LTable _ | LNil) as mt =>
            Some (tt, set_userdata
                        (<[a := {| ud_size := ud_size u; ud_meta := mt |}]>
                           (userdata w)) w)
        | _, _ => None
        end
    | _ => None
    end.

(** ** Native memory and the static members *)

(** Placement new: the object is constructed at the address given. *)
Definition placement_new (addr : nat) (obj : object) : M unit :=
  fun w => Some (tt, set_mem (<[addr := obj]> (mem w)) w).

Definition get_className (T : cpp_class) : M string :=
  fun w => Some (className (statics_of w T), w).

Definition set_className (T : cpp_class) (n : string) : M unit :=
  fun w =>
    let s := statics_of w T in
    Some (tt, set_statics
                (<[class_id T := {| className := n; functions := functions s;
                                    valid := valid s |}]> (statics w)) w).

Definition set_functions (T : cpp_class) (p : option nat) : M unit :=
  fun w =>
    let s := statics_of w T in
    Some (tt, set_statics
                (<[class_id T := {| className := className s; functions := p;
                                    valid := valid s |}]> (statics w)) w).

Definition set_valid (T : cpp_class) (b : bool) : M unit :=
  fun w =>
    let s := statics_of w T in
    Some (tt, set_statics
                (<[class_id T := {| className := className s;
                                    functions := functions s;
                                    valid := b |}]> (statics w)) w).

(** [functions->emplace_back(f)] through the static pointer of [Class<T>];
    a null pointer cannot be followed. *)
Definition functions_emplace_back (T : cpp_class) (f : CppFunction) : M unit :=
  fun w =>
    match functions (statics_of w T) with
    | Some p =>
        Some (tt, set_stores
                    (<[p := default [] (stores w !! p) ++ [f]]> (stores w)) w)
    | None => None
    end.

(** ** The collaborators declared in CppFunction.hpp *)

(** Modelled from the spec: the constructor of [CppFunction], whose header is
    not among the sources.  [new CppFunction<Ret, Args...>(state, f)] keeps
    the callable [f] and, as the comment at each call site says, leaves the
    Lua closure that invokes it on top of the stack.  A wrapper is named by
    what it holds: the identity of the object that [new] allocates is not
    represented, so two wrappers of the same signature and callable are the
    same value here although they are two objects in the program. *)
Definition CppFunction_new (Ret : ctype) (Args : list ctype) (f : std_function)
  : M CppFunction :=
  let c := {| fn_ret := Ret; fn_params := Args; fn_call := f |} in
  push (LClosure c) ;; ret c.

(** Modelled from the spec: the callable a [CppFunction] makes of a pointer
    to a non-const member function, the constructor used at line 134.  The
    instance is the implicit first argument, the declared arguments follow
    and the result of the method is passed through. *)
Definition mem_fn (func : method) : std_function :=
  fun args m =>
    match args with
    | VPtr self :: rest =>
        match m !! self with
        | Some obj =>
            match m_body func obj rest with
            | Some (r, obj') => Some (r, <[self := obj']> m)
            | None => None
            end
        | None => None
        end
    | _ => None
    end.

(** Modelled from the spec: the same for a pointer to a const member
    function, the constructor used at line 144. *)
Definition mem_fn_const (func : const_method) : std_function :=
  fun args m =>
    match args with
    | VPtr self :: rest =>
        match m !! self with
        | Some obj =>
            match cm_body func obj rest with
            | Some (r, obj') => Some (r, <[self := obj']> m)
            | None => None
            end
        | None => None
        end
    | _ => None
    end.

(** Modelled from the spec: the conversion of one Lua argument to the
    declared native type, the part of CppFunction.hpp that [detail::getTuple]
    applies to each argument. *)
Definition fromLua (ty : ctype) (v : lua_value) : option cpp_value :=
  match ty, v with
  | (TInt | TConst TInt), LNumber z => Some (VInt z)
  | (TBool | TConst TBool), LBoolean b => Some (VBool b)
  | (TString | TConst TString), LString s => Some (VString s)
  | TPtr _, LUserdata a => Some (VPtr a)
  | _, _ => None
  end.

(** Modelled from the spec: the arguments of the running call, from stack
    index 1 upwards, converted one by one to the declared types. *)
Fixpoint decode (tys : list ctype) (frame : list lua_value)
  : option (list cpp_value) :=
  match tys, frame with
  | [], _ => Some []
  | ty :: tys', v :: frame' =>
      match fromLua ty v, decode tys' frame' with
      | Some a, Some args => Some (a :: args)
      | _, _ => None
      end
  | _ :: _, [] => None
  end.

(** Modelled from the spec: [detail::getTuple<Types...>] of CppFunction.hpp,
    which decodes the arguments of the running call into a tuple of the
    declared types.  It only reads the stack; arguments that do not match
    the signature are outside its contract. *)
Definition getTuple (Types : list ctype) : M (list cpp_value) :=
  fun w => match decode Types (rev (stack w)) with
           | Some args => Some (args, w)
           | None => None
           end.

(** ** [template<typename CppClass> class Class] *)

Section Class.
Variable CppClass : cpp_class.

(** [CppClass*] and [const CppClass*] *)
Definition self_ptr : ctype := TPtr (TClass (class_id CppClass)).
Definition const_self_ptr : ctype :=
  TPtr (TConst (TClass (class_id CppClass))).

(** Lines 98-102 *)
Definition copy (addrNew : nat) (other : object) : M unit :=
  placement_new addrNew (class_copy CppClass other).

(** Lines 104-108 *)
Definition getName : M string := get_className CppClass.

(** Lines 110-114 *)
Definition isValid : M bool :=
  fun w => Some (valid (statics_of w CppClass), w).

(** Lines 208-214: the constructor chosen by the arguments, run at [addr];
    a constructor that throws does not return. *)
Definition factory (addr : nat) (args : list cpp_value) : M unit :=
  match class_construct CppClass args with
  | Some obj => placement_new addr obj
  | None => fail
  end.

(** Lines 191-206 *)
Definition newInstance (CstrArgs : list ctype) : M Z :=
  args <- getTuple CstrArgs ;;
  c <- lua_newuserdata (class_sizeof CppClass) ;;
  factory c args ;;
  cn <- get_className CppClass ;;
  luaL_setmetatable (c_str cn) ;;
  ret 1.

(** The closures of lines 156-159 and 167-170 (181-184 is the same as the
    latter); [t] is captured by value. *)
Definition setter (t : field) : std_function :=
  fun args m =>
    match args with
    | [VPtr self; val] =>
        match m !! self with
        | Some obj => Some (VVoid, <[self := <[f_offset t := val]> obj]> m)
        | None => None
        end
    | _ => None
    end.

Definition getter (t : field) : std_function :=
  fun args m =>
    match args with
    | [VPtr self] =>
        match m !! self with
        | Some obj =>
            match obj !! f_offset t with
            | Some v => Some (v, m)
            | None => None
            end
        | None => None
        end
    | _ => None
    end.

(** Lines 128-136 *)
Definition addMember_func (funcName : string) (func : method) : M unit :=
  lua_pushstring (c_str funcName) ;;
  f <- CppFunction_new (m_ret func) (self_ptr :: m_args func) (mem_fn func) ;;
  functions_emplace_back CppClass f ;;
  lua_rawset (-3).

(** Lines 138-146 *)
Definition addMember_const_func (funcName : string) (func : const_method)
  : M unit :=
  lua_pushstring (c_str funcName) ;;
  f <- CppFunction_new (cm_ret func) (self_ptr :: cm_args func)
         (mem_fn_const func) ;;
  functions_emplace_back CppClass f ;;
  lua_rawset (-3).

(** Lines 148-175 *)
Definition addMember_var (name : string) (t : field) : M unit :=
  let setterName := "set_" +:+ name in
  lua_pushstring (c_str setterName) ;;
  f <- CppFunction_new TVoid [self_ptr; f_type t] (setter t) ;;
  functions_emplace_back CppClass f ;;
  lua_rawset (-3) ;;
  lua_pushstring (c_str name) ;;
  g <- CppFunction_new (f_type t) [const_self_ptr] (getter t) ;;
  functions_emplace_back CppClass g ;;
  lua_rawset (-3).

(** Lines 177-189 *)
Definition addMember_const_var (name : string) (t : field) : M unit :=
  lua_pushstring (c_str name) ;;
  g <- CppFunction_new (f_type t) [const_self_ptr] (getter t) ;;
  functions_emplace_back CppClass g ;;
  lua_rawset (-3).

(** Overload resolution between the four [addMember] templates. *)
Definition addMember (name : string) (mem : member) : M unit :=
  match mem with
  | MemFunc func => addMember_func name func
  | MemConstFunc func => addMember_const_func name func
  | MemVar t =>
      if is_const (f_type t) then addMember_const_var name t
      else addMember_var name t
  end.

(** Lines 116-126 *)
Fixpoint addMembers (mems : list (string * member)) : M unit :=
  match mems with
  | [] => ret tt
  | (n, mem) :: mems' => addMember n mem ;; addMembers mems'
  end.

End Class.

(** ** Statements that do not return *)

(** What a run leaves behind.  Either it returned, or it stopped at a call
    that did not return (a Lua error, a C++ exception); the statements before
    that call have had their effect, the call itself has had none. *)
Inductive outcome (A : Type) : Type :=
| Returned (a : A) (w : world)
| Aborted (w : world).

Arguments Returned {A} a w.
Arguments Aborted {A} w.

Definition returned {A} (o : outcome A) : option (A * world) :=
  match o with
  | Returned a w => Some (a, w)
  | Aborted _ => None
  end.


(** The constructor and the functions it calls, statement by statement as
    in the source, each call of the Lua API and of the collaborators being
    one step: a run keeps the state in which a call that does not return
    leaves the program. *)
Module Abortable.

Definition run (A : Type) : Type := world -> outcome A.

Definition ret {A} (a : A) : run A := fun w => Returned a w.

Definition bind {A B} (m : run A) (k : A -> run B) : run B :=
  fun w => match m w with
           | Returned a w' => k a w'
           | Aborted w' => Aborted w'
           end.

(** One call: it returns as the operation does, or it aborts in the state
    it was made in. *)
Definition step {A} (m : M A) : run A :=
  fun w => match m w with
           | Some (a, w') => Returned a w'
           | None => Aborted w
           end.

Declare Scope abort_scope.
Notation "x <- m ;; k" := (bind m (fun x => k))
  (at level 100, m at next level, k at level 200, right associativity,
   only parsing) : abort_scope.
Notation "m ;; k" := (bind m (fun _ => k))
  (at level 100, k at level 200, right associativity, only parsing)
  : abort_scope.
Local Open Scope abort_scope.

Section Class.
Variable CppClass : cpp_class.

(** Lines 128-136, as [addMember_func] above *)
Definition addMember_func (funcName : string) (func : method) : run unit :=
  step (lua_pushstring (c_str funcName)) ;;
  f <- step (CppFunction_new (m_ret func) (self_ptr CppClass :: m_args func)
               (mem_fn func)) ;;
  step (functions_emplace_back CppClass f) ;;
  step (lua_rawset (-3)).

(** Lines 138-146 *)
Definition addMember_const_func (funcName : string) (func : const_method)
  : run unit :=
  step (lua_pushstring (c_str funcName)) ;;
  f <- step (CppFunction_new (cm_ret func) (self_ptr CppClass :: cm_args func)
               (mem_fn_const func)) ;;
  step (functions_emplace_back CppClass f) ;;
  step (lua_rawset (-3)).

(** Lines 148-175 *)
Definition addMember_var (name : string) (t : field) : run unit :=
  let setterName := "set_" +:+ name in
  step (lua_pushstring (c_str setterName)) ;;
  f <- step (CppFunction_new TVoid [self_ptr CppClass; f_type t] (setter t)) ;;
  step (functions_emplace_back CppClass f) ;;
  step (lua_rawset (-3)) ;;
  step (lua_pushstring (c_str name)) ;;
  g <- step (CppFunction_new (f_type t) [const_self_ptr CppClass] (getter t)) ;;
  step (functions_emplace_back CppClass g) ;;
  step (lua_rawset (-3)).

(** Lines 177-189 *)
Definition addMember_const_var (name : string) (t : field) : run unit :=
  step (lua_pushstring (c_str name)) ;;
  g <- step (CppFunction_new (f_type t) [const_self_ptr CppClass] (getter t)) ;;
  step (functions_emplace_back CppClass g) ;;
  step (lua_rawset (-3)).

Definition addMember (name : string) (mem : member) : run unit :=
  match mem with
  | MemFunc func => addMember_func name func
  | MemConstFunc func => addMember_const_func name func
  | MemVar t =>
      if is_const (f_type t) then addMember_const_var name t
      else addMember_var name t
  end.

(** Lines 116-126 *)
Fixpoint addMembers (mems : list (string * member)) : run unit :=
  match mems with
  | [] => ret tt
  | (n, mem) :: mems' => addMember n mem ;; addMembers mems'
  end.

(** Lines 74-93: the constructor up to, and without, the assignment to
    [valid]. *)
Definition Class_ctor_steps (n : string) (CstrArgs : list ctype) (fmap : nat)
  (mems : list (string * member)) : run unit :=
  step (set_className CppClass n) ;;
  step (set_functions CppClass (Some fmap)) ;;
  cn <- step (get_className CppClass) ;;
  step (luaL_getmetatable (c_str cn)) ;;
  step (lua_pushstring "__index") ;;
  step (lua_pushvalue (-2)) ;;
  step (lua_rawset (-3)) ;;
  step (lua_pushstring "new") ;;
  step (lua_pushcfunction (newInstance_ptr CppClass CstrArgs)) ;;
  step (lua_rawset (-3)) ;;
  addMembers mems ;;
  step (lua_pop 1).

(** Lines 69-96: the constructor of [Class]. *)
Definition Class_ctor (n : string) (CstrArgs : list ctype) (fmap : nat)
  (mems : list (string * member)) : run unit :=
  step (set_className CppClass n) ;;
  step (set_functions CppClass (Some fmap)) ;;
  cn <- step (get_className CppClass) ;;
  step (luaL_getmetatable (c_str cn)) ;;
  step (lua_pushstring "__index") ;;
  step (lua_pushvalue (-2)) ;;
  step (lua_rawset (-3)) ;;
  step (lua_pushstring "new") ;;
  step (lua_pushcfunction (newInstance_ptr CppClass CstrArgs)) ;;
  step (lua_rawset (-3)) ;;
  addMembers mems ;;
  step (lua_pop 1) ;;
  step (set_valid CppClass true).

End Class.

End Abortable.

(** The constructor as an operation: what it does when it returns. *)
Definition Class_ctor (CppClass : cpp_class) (n : string)
  (CstrArgs : list ctype) (fmap : nat) (mems : list (string * member))
  : M unit :=
  fun w => returned (Abortable.Class_ctor CppClass n CstrArgs fmap mems w).

(** ** What the host and Lua do around this file *)

(** Calling a C function that was pushed by [lua_pushcfunction]. *)
Definition call_cfunction (f : cfunction) : M Z :=
  match f with
  | newInstance_ptr T CstrArgs => newInstance T CstrArgs
  end.

(** [luaL_newmetatable], the call by which a host creates the metatable of
    a name: an existing registry entry is left as it is and pushed, otherwise
    a fresh empty table is entered under the name and pushed. *)
Definition luaL_newmetatable (tname : string) : M Z :=
  fun w =>
    match registry w !! tname with
    | Some LNil | None =>
        let r := fresh (dom (tables w)) in
        Some (1, {| stack := LTable r :: stack w;
                    registry := <[tname := LTable r]> (registry w);
                    tables := <[r := ∅]> (tables w);
                    userdata := userdata w; statics := statics w;
                    stores := stores w; mem := mem w |})
    | Some v => Some (0, set_stack (v :: stack w) w)
    end.

(** The state before anything ran: the static members hold their
    initialisers. *)
Definition world_init : world :=
  {| stack := []; registry := ∅; tables := ∅; userdata := ∅;
     statics := ∅; stores := ∅; mem := ∅ |}.

(** The type tag of a class: what [luaL_setmetatable] finds under its
    name. *)
Definition type_tag (w : world) (T : cpp_class) : lua_value :=
  default LNil (registry w !! c_str (className (statics_of w T))).

(** Everything that can happen to the state: the host creates a metatable,
    registers a class, copies an instance or queries the registry; a script
    calls an entry point that was pushed as a C function (its arguments form
    the frame of the call, the caller's stack is back afterwards) or calls a
    bound callable. *)
Inductive operation :=
| OpNewMetatable (tname : string)
| OpRegister (T : cpp_class) (n : string) (CstrArgs : list ctype)
    (fmap : nat) (mems : list (string * member))
| OpCopy (T : cpp_class) (addrNew : nat) (other : object)
| OpGetName (T : cpp_class)
| OpIsValid (T : cpp_class)
| OpCallC (f : cfunction) (args : list lua_value)
| OpCallClosure (f : CppFunction) (args : list cpp_value).

Definition run_op (o : operation) : M unit :=
  match o with
  | OpNewMetatable tname => luaL_newmetatable tname ;; lua_pop 1
  | OpRegister T n CstrArgs fmap mems => Class_ctor T n CstrArgs fmap mems
  | OpCopy T addrNew other => copy T addrNew other
  | OpGetName T => getName T ;; ret tt
  | OpIsValid T => isValid T ;; ret tt
  | OpCallC f args =>
      fun w => match call_cfunction f (set_stack (rev args) w) with
               | Some (_, w') => Some (tt, set_stack (stack w) w')
               | None => None
               end
  | OpCallClosure f args =>
      fun w => match fn_call f args (mem w) with
               | Some (_, m') => Some (tt, set_mem m' w)
               | None => None
               end
  end.

Fixpoint run_ops (os : list operation) : M unit :=
  match os with
  | [] => ret tt
  | o :: os' => run_op o ;; run_ops os'
  end.



(** The name an operation registers [T] under, if it registers [T]. *)
Definition registers (T : cpp_class) (o : operation) : option string :=
  match o with
  | OpRegister T' n _ _ _ =>
      if decide (class_id T' = class_id T) then Some n else None
  | _ => None
  end.

(** The name of the last registration of [T] among the operations. *)
Definition last_registration (T : cpp_class) (os : list operation)
  : option string :=
  last (omap (registers T) os).

(** Lines 74-93: the constructor up to, and without, the assignment to
    [valid]. *)
Definition Class_ctor_steps (T : cpp_class) (n : string)
  (CstrArgs : list ctype) (fmap : nat) (mems : list (string * member))
  : M unit :=
  set_className T n ;;
  set_functions T (Some fmap) ;;
  cn <- get_className T ;;
  luaL_getmetatable (c_str cn) ;;
  lua_pushstring "__index" ;;
  lua_pushvalue (-2) ;;
  lua_rawset (-3) ;;
  lua_pushstring "new" ;;
  lua_pushcfunction (newInstance_ptr T CstrArgs) ;;
  lua_rawset (-3) ;;
  addMembers T mems ;;
  lua_pop 1.

(** ** The entries of the metatable *)

Definition wrap_func (T : cpp_class) (func : method) : CppFunction :=
  {| fn_ret := m_ret func; fn_params := self_ptr T :: m_args func;
     fn_call := mem_fn func |}.

Definition wrap_const_func (T : cpp_class) (func : const_method) : CppFunction :=
  {| fn_ret := cm_ret func; fn_params := self_ptr T :: cm_args func;
     fn_call := mem_fn_const func |}.

Definition wrap_setter (T : cpp_class) (t : field) : CppFunction :=
  {| fn_ret := TVoid; fn_params := [self_ptr T; f_type t];
     fn_call := setter t |}.

Definition wrap_getter (T : cpp_class) (t : field) : CppFunction :=
  {| fn_ret := f_type t; fn_params := [const_self_ptr T];
     fn_call := getter t |}.

(** The table entries one member gives rise to, in the order in which
    [addMember] writes them. *)
Definition member_entries (T : cpp_class) (name : string) (mem : member)
  : list (string * CppFunction) :=
  match mem with
  | MemFunc func => [(c_str name, wrap_func T func)]
  | MemConstFunc func => [(c_str name, wrap_const_func T func)]
  | MemVar t =>
      if is_const (f_type t) then [(c_str name, wrap_getter T t)]
      else [(c_str ("set_" +:+ name), wrap_setter T t);
            (c_str name, wrap_getter T t)]
  end.

Fixpoint all_entries (T : cpp_class) (mems : list (string * member))
  : list (string * CppFunction) :=
  match mems with
  | [] => []
  | (n, mem) :: mems' => member_entries T n mem ++ all_entries T mems'
  end.

(** One push-push-rawset round on the table [r], with the callable appended
    to the store [p]. *)
Definition bind_entry (r p : nat) (w : world) (e : string * CppFunction)
  : world :=
  {| stack := stack w; registry := registry w;
     tables := <[r := <[e.1 := LClosure e.2]> (table_at w r)]> (tables w);
     userdata := userdata w; statics := statics w;
     stores := <[p := default [] (stores w !! p) ++ [e.2]]> (stores w);
     mem := mem w |}.

Definition bind_entries (r p : nat) (es : list (string * CppFunction))
  (w : world) : world :=
  fold_left (bind_entry r p) es w.

Definition insert_entries (es : list (string * CppFunction)) (t : table)
  : table :=
  fold_left (fun t e => <[e.1 := LClosure e.2]> t) es t.

Definition store_at (w : world) (p : nat) : list CppFunction :=
  default [] (stores w !! p).

(** The state at line 90: names assigned, metatable on the stack with its
    [__index] and [new] entries written. *)
Definition prepared (T : cpp_class) (n : string) (CstrArgs : list ctype)
  (fmap r : nat) (w : world) : world :=
  {| stack := LTable r :: stack w; registry := registry w;
     tables := <[r := <["new" := LCFunction (newInstance_ptr T CstrArgs)]>
                         (<["__index" := LTable r]> (table_at w r))]>
                 (tables w);
     userdata := userdata w;
     statics := <[class_id T := {| className := n; functions := Some fmap;
                                   valid := valid (statics_of w T) |}]>
                  (statics w);
     stores := stores w; mem := mem w |}.

(** The state at line 94, before [valid] is assigned, when [r] is the
    metatable of the name. *)
Definition members_bound (T : cpp_class) (n : string) (CstrArgs : list ctype)
  (fmap : nat) (mems : list (string * member)) (r : nat) (w : world) : world :=
  let w2 := bind_entries r fmap (all_entries T mems)
              (prepared T n CstrArgs fmap r w) in
  {| stack := stack w; registry := registry w; tables := tables w2;
     userdata := userdata w;
     statics := <[class_id T := {| className := n; functions := Some fmap;
                                   valid := valid (statics_of w T) |}]>
                  (statics w);
     stores := stores w2; mem := mem w |}.

(** The state the constructor returns in. *)
Definition registered (T : cpp_class) (n : string) (CstrArgs : list ctype)
  (fmap : nat) (mems : list (string * member)) (r : nat) (w : world) : world :=
  let w2 := bind_entries r fmap (all_entries T mems)
              (prepared T n CstrArgs fmap r w) in
  {| stack := stack w; registry := registry w; tables := tables w2;
     userdata := userdata w;
     statics := <[class_id T := {| className := n; functions := Some fmap;
                                   valid := true |}]> (statics w);
     stores := stores w2; mem := mem w |}.

(** The state [newInstance] returns in: a block of the given size at the
    address [c], holding the object and carrying the metatable, on top of
    the stack. *)
Definition with_instance (c : nat) (size : N) (mt : lua_value) (obj : object)
  (w : world) : world :=
  {| stack := LUserdata c :: stack w; registry := registry w;
     tables := tables w;
     userdata := <[c := {| ud_size := size; ud_meta := mt |}]> (userdata w);
     statics := statics w; stores := stores w;
     mem := <[c := obj]> (mem w) |}.

(** The callable a member is bound to under its own name. *)
Definition member_callable (T : cpp_class) (mem : member) : CppFunction :=
  match mem with
  | MemFunc func => wrap_func T func
  | MemConstFunc func => wrap_const_func T func
  | MemVar t => wrap_getter T t
  end.

(** The keys the members write, in order. *)
Definition member_keys (T : cpp_class) (mems : list (string * member))
  : list string :=
  (all_entries T mems).*1.



(** The program state seen through another [lua_State]: the stack, the
    registry, the tables and the userdata are those of [L]; the static
    members of [Class], the stores and the native memory belong to the
    process and are those of [w]. *)
Definition in_state (L w : world) : world :=
  {| stack := stack L; registry := registry L; tables := tables L;
     userdata := userdata L; statics := statics w; stores := stores w;
     mem := mem w |}.

(** The number of callables one member adds to the store. *)
Definition callables_of (mem : member) : nat :=
  match mem with
  | MemFunc _ | MemConstFunc _ => 1
  | MemVar t => if is_const (f_type t) then 1 else 2
  end.

(** ** Example classes *)

Module Examples.

(** [struct Point { int x, y; const int id; Point(int, int);
    int getSum() const; void scale(int); }] *)
Definition field_x : field := {| f_type := TInt; f_offset := 0 |}.
Definition field_y : field := {| f_type := TInt; f_offset := 1 |}.
Definition field_id : field := {| f_type := TConst TInt; f_offset := 2 |}.

Definition getSum : const_method :=
  {| cm_ret := TInt; cm_args := [];
     cm_body := fun o _ =>
       match o !! 0%nat, o !! 1%nat with
       | Some (VInt a), Some (VInt b) => Some (VInt (a + b), o)
       | _, _ => None
       end |}.

Definition scale : method :=
  {| m_ret := TVoid; m_args := [TInt];
     m_body := fun o args =>
       match args, o !! 0%nat, o !! 1%nat with
       | [VInt k], Some (VInt a), Some (VInt b) =>
           Some (VVoid, <[0%nat := VInt (k * a)]> (<[1%nat := VInt (k * b)]> o))
       | _, _, _ => None
       end |}.

Definition Point : cpp_class :=
  {| class_id := 0; class_sizeof := 12;
     class_construct := fun args =>
       match args with
       | [VInt a; VInt b] =>
           Some (<[0%nat := VInt a]> (<[1%nat := VInt b]> {[ 2%nat := VInt 7 ]}))
       | _ => None
       end;
     class_copy := fun o => o |}.

(** [struct Ticket { int serial; Ticket(int); Ticket(const Ticket&); }]
    whose copy constructor gives the copy the serial number 0. *)
Definition field_serial : field := {| f_type := TInt; f_offset := 0 |}.

Definition Ticket : cpp_class :=
  {| class_id := 1; class_sizeof := 4;
     class_construct := fun args =>
       match args with
       | [VInt a] => Some {[ 0%nat := VInt a ]}
       | _ => None
       end;
     class_copy := fun o => <[0%nat := VInt 0]> o |}.

Definition point_members : list (string * member) :=
  [("x", MemVar field_x); ("getSum", MemConstFunc getSum)].

(** The scenario of the specification: the host creates the metatable and
    registers [Point] with the constructor [(int, int)], the field [x] and
    the method [getSum]. *)
Definition point_ops : list operation :=
  [OpNewMetatable "Point";
   OpRegister Point "Point" [TInt; TInt] 0 point_members].

Definition world_of (os : list operation) : world :=
  match run_ops os world_init with
  | Some (_, w) => w
  | None => world_init
  end.

(** The host state once the metatable of ["Point"] exists. *)
Definition point_host : world := world_of [OpNewMetatable "Point"].

(** The state once [Point] is registered. *)
Definition point_world : world := world_of point_ops.

(** The state at line 90 of that registration, the metatable on top of the
    stack. *)
Definition point_binding : world :=
  prepared Point "Point" [TInt; TInt] 0 0 point_host.

(** A state of [Point]. *)
Definition a_point : object :=
  <[0%nat := VInt 3]> (<[1%nat := VInt 4]> {[ 2%nat := VInt 7 ]}).

(** A field bound as ["value"], then a method bound under the same name. *)
Definition colliding_members : list (string * member) :=
  [("value", MemVar field_x); ("value", MemFunc scale)].

(** The const field [id] together with a method that is called [set_id]. *)
Definition id_members : list (string * member) :=
  [("id", MemVar field_id); ("set_id", MemFunc scale)].

(** Two classes registered under one name, each after the host asked for
    the metatable of the name, each with a store of its own. *)
Definition shared_name_ops : list operation :=
  [OpNewMetatable "Shape";
   OpRegister Point "Shape" [TInt; TInt] 0 [("x", MemVar field_x)];
   OpNewMetatable "Shape";
   OpRegister Ticket "Shape" [TInt] 1 [("serial", MemVar field_serial)]].

Definition shared_name_world : world := world_of shared_name_ops.

(** A name with an embedded NUL: the characters of ["Point"], a NUL, and
    ["v2"]. *)
Definition nul_name : string := "Point" +:+ String Ascii.zero "v2".

(** The host state with the metatables of ["Point"] and ["Dot"]. *)
Definition two_names_host : world :=
  world_of [OpNewMetatable "Point"; OpNewMetatable "Dot"].

End Examples.

(** * Properties *)

(** ** The effect of binding members and of the constructor *)

Lemma bind_entries_stack r p es w : stack (bind_entries r p es w) = stack w.
Proof. revert w; induction es as [|e es IH]; intros w; simpl; [done|]. by rewrite IH. Qed.

Lemma bind_entries_statics r p es w :
  statics (bind_entries r p es w) = statics w.
Proof. revert w; induction es as [|e es IH]; intros w; simpl; [done|]. by rewrite IH. Qed.

Lemma bind_entries_registry r p es w :
  registry (bind_entries r p es w) = registry w.
Proof. revert w; induction es as [|e es IH]; intros w; simpl; [done|]. by rewrite IH. Qed.

Lemma bind_entries_userdata r p es w :
  userdata (bind_entries r p es w) = userdata w.
Proof. revert w; induction es as [|e es IH]; intros w; simpl; [done|]. by rewrite IH. Qed.

Lemma bind_entries_mem r p es w : mem (bind_entries r p es w) = mem w.
Proof. revert w; induction es as [|e es IH]; intros w; simpl; [done|]. by rewrite IH. Qed.

Lemma bind_entries_app r p es1 es2 w :
  bind_entries r p (es1 ++ es2) w = bind_entries r p es2 (bind_entries r p es1 w).
Proof. apply fold_left_app. Qed.

Lemma bind_entries_table r p es w :
  table_at (bind_entries r p es w) r = insert_entries es (table_at w r).
Proof.
  revert w; induction es as [|e es IH]; intros w; simpl; [done|].
  rewrite IH. f_equal. unfold table_at; simpl. by rewrite lookup_insert_eq.
Qed.

Lemma bind_entries_other_table r p es w r' :
  r' ≠ r -> tables (bind_entries r p es w) !! r' = tables w !! r'.
Proof.
  intros Hne. revert w; induction es as [|e es IH]; intros w; simpl; [done|].
  rewrite IH. simpl. by rewrite lookup_insert_ne.
Qed.

Lemma bind_entries_store r p es w :
  store_at (bind_entries r p es w) p = store_at w p ++ es.*2.
Proof.
  revert w; induction es as [|e es IH]; intros w; simpl.
  - by rewrite app_nil_r.
  - rewrite IH. unfold store_at; simpl. rewrite lookup_insert_eq. simpl.
    by rewrite <- app_assoc.
Qed.

Lemma statics_of_bind_entries r p es w T :
  statics_of (bind_entries r p es w) T = statics_of w T.
Proof. unfold statics_of. by rewrite bind_entries_statics. Qed.

(** [addMember] run with the metatable on top of the stack. *)
Lemma addMember_spec T name mem w r rest p :
  stack w = LTable r :: rest ->
  functions (statics_of w T) = Some p ->
  addMember T name mem w
  = Some (tt, bind_entries r p (member_entries T name mem) w).
Proof.
  intros Hs Hf. destruct w as [stk reg tbs ud sts srs m]. simpl in Hs. subst stk.
  unfold statics_of in Hf; simpl in Hf.
  destruct mem as [func|func|t]; simpl.
  - unfold addMember_func, bind, lua_pushstring, CppFunction_new, push, ret,
      functions_emplace_back, statics_of, lua_rawset; simpl.
    rewrite Hf. reflexivity.
  - unfold addMember_const_func, bind, lua_pushstring, CppFunction_new, push,
      ret, functions_emplace_back, statics_of, lua_rawset; simpl.
    rewrite Hf. reflexivity.
  - destruct (is_const (f_type t)).
    + unfold addMember_const_var, bind, lua_pushstring, CppFunction_new, push,
        ret, functions_emplace_back, statics_of, lua_rawset; simpl.
      rewrite Hf. reflexivity.
    + unfold addMember_var, bind, lua_pushstring, CppFunction_new, push,
        ret, functions_emplace_back, statics_of, lua_rawset; simpl.
      rewrite Hf. simpl. rewrite Hf. reflexivity.
Qed.

Lemma addMembers_spec T mems w r rest p :
  stack w = LTable r :: rest ->
  functions (statics_of w T) = Some p ->
  addMembers T mems w = Some (tt, bind_entries r p (all_entries T mems) w).
Proof.
  revert w. induction mems as [|[n mem] mems IH]; intros w Hs Hf; simpl.
  - reflexivity.
  - unfold bind. rewrite (addMember_spec T n mem w r rest p Hs Hf).
    rewrite bind_entries_app. apply IH.
    + by rewrite bind_entries_stack.
    + by rewrite statics_of_bind_entries.
Qed.

(** ** Runs that stop, and runs that return *)

Lemma returned_step {A} (m : M A) w : returned (Abortable.step m w) = m w.
Proof. unfold Abortable.step. by destruct (m w) as [[a w']|]. Qed.

Lemma returned_bind {A B} (m' : Abortable.run A) (k' : A -> Abortable.run B)
  (m : M A) (k : A -> M B) w :
  (forall w, returned (m' w) = m w) ->
  (forall a w, returned (k' a w) = k a w) ->
  returned (Abortable.bind m' k' w) = bind m k w.
Proof.
  intros Hm Hk. unfold Abortable.bind, bind. rewrite <- Hm.
  destruct (m' w) as [a w'|w']; simpl; [apply Hk|done].
Qed.


Ltac link_steps :=
  repeat first [ apply returned_step
               | apply returned_bind; intros ].

(** A run that returns is a return of the operation, and the other way
    round: the statements are the same. *)
Lemma returned_addMember T name mem w :
  returned (Abortable.addMember T name mem w) = addMember T name mem w.
Proof.
  destruct mem as [func|func|t]; simpl.
  - unfold Abortable.addMember_func, addMember_func. link_steps.
  - unfold Abortable.addMember_const_func, addMember_const_func. link_steps.
  - destruct (is_const (f_type t)).
    + unfold Abortable.addMember_const_var, addMember_const_var. link_steps.
    + unfold Abortable.addMember_var, addMember_var. link_steps.
Qed.

Lemma returned_addMembers T mems w :
  returned (Abortable.addMembers T mems w) = addMembers T mems w.
Proof.
  revert w. induction mems as [|[n mem] mems IH]; intros w; simpl; [done|].
  apply returned_bind; [apply returned_addMember|intros _; apply IH].
Qed.

Lemma returned_Class_ctor_steps T n CstrArgs fmap mems w :
  returned (Abortable.Class_ctor_steps T n CstrArgs fmap mems w)
  = Class_ctor_steps T n CstrArgs fmap mems w.
Proof.
  unfold Abortable.Class_ctor_steps, Class_ctor_steps.
  repeat first [ apply returned_step
               | apply returned_addMembers
               | apply returned_bind; intros ].
Qed.


Lemma abortable_bind_assoc {A B C} (m : Abortable.run A)
  (k : A -> Abortable.run B) (h : B -> Abortable.run C) w :
  Abortable.bind (Abortable.bind m k) h w
  = Abortable.bind m (fun a => Abortable.bind (k a) h) w.
Proof. unfold Abortable.bind. by destruct (m w). Qed.

Lemma abortable_bind_ext {A B} (m : Abortable.run A)
  (k1 k2 : A -> Abortable.run B) w :
  (forall a w', k1 a w' = k2 a w') ->
  Abortable.bind m k1 w = Abortable.bind m k2 w.
Proof. intros H. unfold Abortable.bind. destruct (m w); [apply H|done]. Qed.

(** The constructor is its first statements followed by the assignment to
    [valid], also when it stops. *)
Lemma abortable_Class_ctor_steps_then_valid T n CstrArgs fmap mems w :
  Abortable.Class_ctor T n CstrArgs fmap mems w
  = Abortable.bind (Abortable.Class_ctor_steps T n CstrArgs fmap mems)
      (fun _ => Abortable.step (set_valid T true)) w.
Proof.
  unfold Abortable.Class_ctor, Abortable.Class_ctor_steps.
  repeat (rewrite abortable_bind_assoc; apply abortable_bind_ext; intros ? ?).
  reflexivity.
Qed.


Lemma bind_assoc {A B C} (m : M A) (k : A -> M B) (h : B -> M C) w :
  bind (bind m k) h w = bind m (fun a => bind (k a) h) w.
Proof. unfold bind. destruct (m w) as [[a w']|]; reflexivity. Qed.

Lemma bind_ext {A B} (m : M A) (k1 k2 : A -> M B) w :
  (forall a w', k1 a w' = k2 a w') -> bind m k1 w = bind m k2 w.
Proof.
  intros H. unfold bind. destruct (m w) as [[a w']|]; [apply H|reflexivity].
Qed.

(** The constructor is its first statements followed by the assignment to
    [valid]. *)
Lemma Class_ctor_steps_then_valid T n CstrArgs fmap mems w :
  Class_ctor T n CstrArgs fmap mems w
  = bind (Class_ctor_steps T n CstrArgs fmap mems)
      (fun _ => set_valid T true) w.
Proof.
  unfold Class_ctor. rewrite abortable_Class_ctor_steps_then_valid.
  apply returned_bind; [apply returned_Class_ctor_steps|].
  intros _ w'. apply returned_step.
Qed.

Ltac unfold_ctor :=
  unfold Class_ctor_steps, bind, set_className, set_functions, get_className,
    luaL_getmetatable, lua_pushstring, lua_pushvalue, lua_pushcfunction,
    lua_rawset, push, statics_of, table_at; simpl;
  rewrite !lookup_insert_eq; simpl.

Lemma Class_ctor_steps_spec T n CstrArgs fmap mems w r :
  registry w !! c_str n = Some (LTable r) ->
  Class_ctor_steps T n CstrArgs fmap mems w
  = Some (tt, members_bound T n CstrArgs fmap mems r w).
Proof.
  intros Hr. destruct w as [stk reg tbs ud sts srs m]. simpl in Hr.
  set (w0 := Build_world stk reg tbs ud sts srs m).
  unfold_ctor. rewrite Hr. simpl.
  rewrite !lookup_insert_eq. simpl. rewrite !insert_insert_eq.
  rewrite (addMembers_spec T mems _ r stk fmap);
    [| reflexivity | unfold statics_of; simpl; by rewrite lookup_insert_eq].
  match goal with
  | |- context [bind_entries r fmap ?es ?w1] =>
      change w1 with (prepared T n CstrArgs fmap r w0);
      pose proof (bind_entries_stack r fmap es (prepared T n CstrArgs fmap r w0)) as Hst;
      pose proof (bind_entries_registry r fmap es (prepared T n CstrArgs fmap r w0)) as Hrg;
      pose proof (bind_entries_userdata r fmap es (prepared T n CstrArgs fmap r w0)) as Hud;
      pose proof (bind_entries_statics r fmap es (prepared T n CstrArgs fmap r w0)) as Hss;
      pose proof (bind_entries_mem r fmap es (prepared T n CstrArgs fmap r w0)) as Hm
  end.
  simpl in Hst, Hrg, Hud, Hss, Hm.
  unfold lua_pop, set_stack, members_bound. simpl.
  rewrite Hst. simpl. rewrite Hrg, Hud, Hss, Hm.
  reflexivity.
Qed.

(** The first statements return only when the registry holds a table under
    the name: without one the first [lua_rawset] is applied to a value that
    is not a table. *)
Lemma Class_ctor_steps_inv T n CstrArgs fmap mems w u w' :
  Class_ctor_steps T n CstrArgs fmap mems w = Some (u, w') ->
  exists r, registry w !! c_str n = Some (LTable r).
Proof.
  intros H. destruct w as [stk reg tbs ud sts srs m].
  destruct (reg !! c_str n) as [v|] eqn:Hr.
  - destruct v; try (by eexists); exfalso; revert H;
      unfold_ctor; rewrite Hr; simpl; discriminate.
  - exfalso; revert H; unfold_ctor; rewrite Hr; simpl; discriminate.
Qed.

Lemma set_valid_members_bound T n CstrArgs fmap mems r w :
  set_valid T true (members_bound T n CstrArgs fmap mems r w)
  = Some (tt, registered T n CstrArgs fmap mems r w).
Proof.
  unfold set_valid, set_statics, statics_of, members_bound, registered. simpl.
  by rewrite lookup_insert_eq, insert_insert_eq.
Qed.

Lemma Class_ctor_spec T n CstrArgs fmap mems w r :
  registry w !! c_str n = Some (LTable r) ->
  Class_ctor T n CstrArgs fmap mems w
  = Some (tt, registered T n CstrArgs fmap mems r w).
Proof.
  intros Hr. rewrite Class_ctor_steps_then_valid. unfold bind.
  rewrite (Class_ctor_steps_spec _ _ _ _ _ _ r Hr).
  apply set_valid_members_bound.
Qed.

Lemma Class_ctor_inv T n CstrArgs fmap mems w u w' :
  Class_ctor T n CstrArgs fmap mems w = Some (u, w') ->
  exists r, registry w !! c_str n = Some (LTable r).
Proof.
  rewrite Class_ctor_steps_then_valid. unfold bind.
  destruct (Class_ctor_steps T n CstrArgs fmap mems w) as [[u' w1]|] eqn:Hs;
    [|discriminate].
  intros _. by eapply Class_ctor_steps_inv.
Qed.

(** [luaL_getmetatable] does not create the metatable: on a registry
    without an entry for the name the constructor does not return. *)
Lemma Class_ctor_without_metatable T n CstrArgs fmap mems w :
  registry w !! c_str n = None ->
  Class_ctor T n CstrArgs fmap mems w = None.
Proof.
  intros Hr.
  destruct (Class_ctor T n CstrArgs fmap mems w) as [[u w']|] eqn:Hc; [|done].
  apply Class_ctor_inv in Hc as [r Hr']. congruence.
Qed.

Lemma registered_table T n CstrArgs fmap mems r w :
  table_at (registered T n CstrArgs fmap mems r w) r
  = insert_entries (all_entries T mems)
      (<["new" := LCFunction (newInstance_ptr T CstrArgs)]>
         (<["__index" := LTable r]> (table_at w r))).
Proof.
  unfold registered. unfold table_at at 1. simpl.
  fold (table_at (bind_entries r fmap (all_entries T mems)
                    (prepared T n CstrArgs fmap r w)) r).
  rewrite bind_entries_table. f_equal.
  unfold table_at at 1. simpl. by rewrite lookup_insert_eq.
Qed.

Lemma registered_other_table T n CstrArgs fmap mems r w r' :
  r' ≠ r ->
  tables (registered T n CstrArgs fmap mems r w) !! r' = tables w !! r'.
Proof.
  intros Hne. unfold registered; simpl.
  rewrite bind_entries_other_table by done. simpl. by rewrite lookup_insert_ne.
Qed.

Lemma registered_store T n CstrArgs fmap mems r w :
  store_at (registered T n CstrArgs fmap mems r w) fmap
  = store_at w fmap ++ (all_entries T mems).*2.
Proof.
  unfold registered. unfold store_at at 1. simpl.
  fold (store_at (bind_entries r fmap (all_entries T mems)
                    (prepared T n CstrArgs fmap r w)) fmap).
  by rewrite bind_entries_store.
Qed.

Lemma registered_statics T n CstrArgs fmap mems r w :
  statics_of (registered T n CstrArgs fmap mems r w) T
  = {| className := n; functions := Some fmap; valid := true |}.
Proof. unfold statics_of, registered; simpl. by rewrite lookup_insert_eq. Qed.

Lemma registered_type_tag T n CstrArgs fmap mems r w :
  registry w !! c_str n = Some (LTable r) ->
  type_tag (registered T n CstrArgs fmap mems r w) T = LTable r.
Proof.
  intros Hr. unfold type_tag. rewrite registered_statics. simpl.
  by rewrite Hr.
Qed.

(** The statements before the assignment to [valid] already leave the new
    name in [className]: it is assigned first, at line 74. *)
Lemma members_bound_className T n CstrArgs fmap mems r w :
  className (statics_of (members_bound T n CstrArgs fmap mems r w) T) = n.
Proof. unfold statics_of, members_bound; simpl. by rewrite lookup_insert_eq. Qed.

Lemma registered_statics_other T n CstrArgs fmap mems r w T' :
  class_id T' ≠ class_id T ->
  statics_of (registered T n CstrArgs fmap mems r w) T' = statics_of w T'.
Proof.
  intros Hne. unfold statics_of, registered; simpl. by rewrite lookup_insert_ne.
Qed.

Lemma insert_entries_app es1 es2 (t : table) :
  insert_entries (es1 ++ es2) t = insert_entries es2 (insert_entries es1 t).
Proof. apply fold_left_app. Qed.

Lemma insert_entries_notin es (t : table) k :
  k ∉ es.*1 -> insert_entries es t !! k = t !! k.
Proof.
  revert t. induction es as [|[k' f] es IH]; intros t Hk; simpl; [done|].
  simpl in Hk. apply not_elem_of_cons in Hk as [Hne Hk].
  rewrite IH by done. by rewrite lookup_insert_ne.
Qed.

Lemma insert_entries_last es1 k f es2 (t : table) :
  k ∉ es2.*1 ->
  insert_entries (es1 ++ (k, f) :: es2) t !! k = Some (LClosure f).
Proof.
  intros Hk. rewrite insert_entries_app. simpl.
  rewrite insert_entries_notin by done. by rewrite lookup_insert_eq.
Qed.

Lemma all_entries_app T ms1 ms2 :
  all_entries T (ms1 ++ ms2) = all_entries T ms1 ++ all_entries T ms2.
Proof.
  induction ms1 as [|[n m] ms1 IH]; simpl; [done|].
  by rewrite IH, app_assoc.
Qed.

(** ** Names as Lua sees them *)

Lemma c_str_setter_name name : c_str ("set_" +:+ name) = "set_" +:+ c_str name.
Proof. reflexivity. Qed.

Lemma setter_name_ne (s : string) : "set_" +:+ s ≠ s.
Proof.
  intros H. apply (f_equal String.length) in H.
  cbv [String.append] in H. simpl in H. lia.
Qed.

Lemma setter_key_ne name : c_str ("set_" +:+ name) ≠ c_str name.
Proof. rewrite c_str_setter_name. apply setter_name_ne. Qed.

(** ** The effect of [newInstance] *)

Lemma getTuple_reads Types w args w' :
  getTuple Types w = Some (args, w') ->
  decode Types (rev (stack w)) = Some args /\ w' = w.
Proof.
  unfold getTuple. destruct (decode Types (rev (stack w))); [|discriminate].
  by intros [= -> ->].
Qed.

Lemma newInstance_spec T CstrArgs w args obj mt :
  decode CstrArgs (rev (stack w)) = Some args ->
  class_construct T args = Some obj ->
  type_tag w T = mt ->
  (mt = LNil \/ exists r, mt = LTable r) ->
  newInstance T CstrArgs w
  = Some (1, with_instance (fresh (dom (userdata w) ∪ dom (mem w)))
               (class_sizeof T) mt obj w).
Proof.
  intros Hd Hc Ht Hmt. destruct w as [stk reg tbs ud sts srs m].
  unfold type_tag, statics_of in Ht. simpl in *.
  unfold newInstance, bind, getTuple, lua_newuserdata, factory. simpl.
  rewrite Hd, Hc.
  unfold placement_new, get_className, luaL_setmetatable, statics_of. simpl.
  rewrite lookup_insert_eq, Ht.
  unfold with_instance, ret; simpl.
  destruct Hmt as [->|[r ->]]; simpl; by rewrite insert_insert_eq.
Qed.

(** Whatever [newInstance] does, it leaves the registry, the tables, the
    static members and the stores alone. *)
Lemma newInstance_frame T CstrArgs w z w' :
  newInstance T CstrArgs w = Some (z, w') ->
  registry w' = registry w /\ tables w' = tables w
  /\ statics w' = statics w /\ stores w' = stores w.
Proof.
  destruct w as [stk reg tbs ud sts srs m].
  unfold newInstance, bind, getTuple, lua_newuserdata, factory. simpl.
  destruct (decode CstrArgs (rev stk)) as [args|]; [|discriminate].
  destruct (class_construct T args) as [obj|]; [|discriminate].
  unfold placement_new, get_className, luaL_setmetatable, statics_of, ret. simpl.
  rewrite lookup_insert_eq.
  destruct (default LNil (reg !! c_str (className (default statics_init (sts !! class_id T)))));
    try discriminate; intros [= <- <-]; simpl; auto.
Qed.

(** ** The static members under the operations *)

Lemma statics_of_same_id w T T' :
  class_id T' = class_id T -> statics_of w T = statics_of w T'.
Proof. intros H. unfold statics_of. by rewrite H. Qed.

(** An operation that registers [T] leaves its name and a set flag; every
    other operation leaves the static members of [T] alone. *)
Lemma run_op_statics T o w u w' :
  run_op o w = Some (u, w') ->
  match registers T o with
  | Some n => className (statics_of w' T) = n /\ valid (statics_of w' T) = true
  | None => statics_of w' T = statics_of w T
  end.
Proof.
  destruct o as [tname|T' n CstrArgs fmap mems|T' a other|T'|T'|f args|f args];
    simpl; intros H.
  - unfold bind, luaL_newmetatable, lua_pop in H.
    destruct (registry w !! tname) as [[]|]; simpl in H;
      injection H as _ <-; reflexivity.
  - destruct (Class_ctor_inv _ _ _ _ _ _ _ _ H) as [r Hr].
    rewrite (Class_ctor_spec _ _ _ _ _ _ r Hr) in H. injection H as _ <-.
    destruct (decide (class_id T' = class_id T)) as [e|ne].
    + rewrite (statics_of_same_id _ T T' e), registered_statics. by split.
    + apply registered_statics_other. congruence.
  - unfold copy, placement_new in H. injection H as _ <-. reflexivity.
  - unfold bind, getName, get_className, ret in H. injection H as _ <-.
    reflexivity.
  - unfold bind, isValid, ret in H. injection H as _ <-. reflexivity.
  - destruct f as [T' CstrArgs]. simpl in H.
    destruct (newInstance T' CstrArgs (set_stack (rev args) w))
      as [[z w1]|] eqn:Hn; [|discriminate].
    injection H as _ <-.
    apply newInstance_frame in Hn as (_ & _ & Hs & _).
    unfold statics_of. simpl. by rewrite Hs.
  - destruct (fn_call f args (mem w)) as [[v m']|]; [|discriminate].
    injection H as _ <-. reflexivity.
Qed.

Lemma run_ops_className T os w0 u w :
  run_ops os w0 = Some (u, w) ->
  className (statics_of w T)
  = default (className (statics_of w0 T)) (last_registration T os).
Proof.
  revert w0. induction os as [|o os IH]; intros w0 H; simpl in H.
  - injection H as _ <-. reflexivity.
  - unfold bind in H.
    destruct (run_op o w0) as [[u1 w1]|] eqn:Ho; [|discriminate].
    rewrite (IH _ H). pose proof (run_op_statics T _ _ _ _ Ho) as Hst.
    unfold last_registration.
    change (omap (registers T) (o :: os))
      with (match registers T o with
            | Some y => y :: omap (registers T) os
            | None => omap (registers T) os
            end).
    destruct (registers T o) as [n|].
    + destruct Hst as [-> _]. rewrite last_cons.
      by destruct (last (omap (registers T) os)).
    + by rewrite Hst.
Qed.


(** ** Lookups after registration *)

Lemma member_entries_last T name mem :
  exists pre,
    member_entries T name mem = pre ++ [(c_str name, member_callable T mem)].
Proof.
  destruct mem as [func|func|t]; simpl.
  - by exists [].
  - by exists [].
  - destruct (is_const (f_type t)).
    + by exists [].
    + by exists [(c_str ("set_" +:+ name), wrap_setter T t)].
Qed.

Lemma registered_lookup_other T n CstrArgs fmap mems r w k :
  k ∉ "__index" :: "new" :: member_keys T mems ->
  table_at (registered T n CstrArgs fmap mems r w) r !! k = table_at w r !! k.
Proof.
  intros Hk. apply not_elem_of_cons in Hk as [H1 Hk].
  apply not_elem_of_cons in Hk as [H2 Hk].
  rewrite registered_table, insert_entries_notin by done.
  by rewrite !lookup_insert_ne.
Qed.

Lemma registered_new_entry T n CstrArgs fmap mems r w :
  "new" ∉ member_keys T mems ->
  table_at (registered T n CstrArgs fmap mems r w) r !! "new"
  = Some (LCFunction (newInstance_ptr T CstrArgs)).
Proof.
  intros Hk. rewrite registered_table, insert_entries_notin by done.
  by rewrite lookup_insert_eq.
Qed.

Lemma bind_entries_other_store r p es w p' :
  p' ≠ p -> stores (bind_entries r p es w) !! p' = stores w !! p'.
Proof.
  intros Hne. revert w; induction es as [|e es IH]; intros w; simpl; [done|].
  rewrite IH. simpl. by rewrite lookup_insert_ne.
Qed.

Lemma registered_other_store T n CstrArgs fmap mems r w p :
  p ≠ fmap ->
  store_at (registered T n CstrArgs fmap mems r w) p = store_at w p.
Proof.
  intros Hne. unfold store_at, registered. simpl.
  by rewrite bind_entries_other_store.
Qed.


(** ** Operations that stop *)











(** * The claims *)

(** ** The value stack *)

(** C10: registration leaves the value stack of the runtime as it found it.
    With the metatable of the name in the registry the constructor returns,
    and the stack on exit is the stack on entry; on the way every member is
    bound by pushing its name and its callable, which the raw set consumes,
    so that each binding also ends with the stack it started with. *)
Theorem registration_preserves_stack T n CstrArgs fmap mems w r :
  registry w !! c_str n = Some (LTable r) ->
  (exists w', Class_ctor T n CstrArgs fmap mems w = Some (tt, w')
              /\ stack w' = stack w)
  /\ (forall name mem w1 rest p,
        stack w1 = LTable r :: rest ->
        functions (statics_of w1 T) = Some p ->
        exists w2, addMember T name mem w1 = Some (tt, w2)
                   /\ stack w2 = LTable r :: rest).
Proof.
  intros Hr. split.
  - eexists. split; [by apply Class_ctor_spec|]. reflexivity.
  - intros name mem w1 rest p Hs Hf. eexists.
    split; [by eapply addMember_spec|].
    by rewrite bind_entries_stack.
Qed.

Lemma registration_preserves_stack_witness :
  (exists w', Class_ctor Examples.Point "Point" [TInt; TInt] 0
                Examples.point_members Examples.point_host = Some (tt, w')
              /\ stack w' = stack Examples.point_host)
  /\ (forall name mem w1 rest p,
        stack w1 = LTable 0 :: rest ->
        functions (statics_of w1 Examples.Point) = Some p ->
        exists w2, addMember Examples.Point name mem w1 = Some (tt, w2)
                   /\ stack w2 = LTable 0 :: rest).
Proof.
  apply (registration_preserves_stack Examples.Point "Point" [TInt; TInt] 0
           Examples.point_members Examples.point_host 0).
  vm_compute. reflexivity.
Defined.

(** ** The instance factory *)

(** C1: for a class [T] whose name has a metatable in the registry, the
    entry point pushed as [new], called with arguments that decode to
    [args] under the registered signature, returns exactly one value: a
    fresh userdata block of [sizeof(T)] bytes on top of the stack, tagged
    with the metatable of the class name, in which the object is the one
    the constructor of [T] makes of [args]. *)
Theorem newInstance_constructs T CstrArgs w args obj r :
  getTuple CstrArgs w = Some (args, w) ->
  class_construct T args = Some obj ->
  type_tag w T = LTable r ->
  exists c w',
    call_cfunction (newInstance_ptr T CstrArgs) w = Some (1, w')
    /\ (c ∉ dom (userdata w)) /\ (c ∉ dom (mem w))
    /\ stack w' = LUserdata c :: stack w
    /\ userdata w' !! c
       = Some {| ud_size := class_sizeof T; ud_meta := LTable r |}
    /\ mem w' !! c = Some obj
    /\ (forall a, a ≠ c ->
          mem w' !! a = mem w !! a /\ userdata w' !! a = userdata w !! a)
    /\ tables w' = tables w /\ registry w' = registry w.
Proof.
  intros Hd Hc Ht. apply getTuple_reads in Hd as [Hd _].
  pose proof (is_fresh (dom (userdata w) ∪ dom (mem w))) as Hfresh.
  set (c := fresh (dom (userdata w) ∪ dom (mem w))) in *.
  exists c, (with_instance c (class_sizeof T) (LTable r) obj w).
  split; [|split; [|split]].
  - simpl. apply (newInstance_spec T CstrArgs w args obj (LTable r)); eauto.
  - set_solver.
  - set_solver.
  - simpl. rewrite !lookup_insert_eq. repeat split; try done.
    all: by rewrite lookup_insert_ne.
Qed.

Lemma newInstance_constructs_witness :
  exists c w',
    call_cfunction (newInstance_ptr Examples.Point [TInt; TInt])
      (set_stack [LNumber 4; LNumber 3] Examples.point_world) = Some (1, w')
    /\ (c ∉ dom (userdata (set_stack [LNumber 4; LNumber 3] Examples.point_world)))
    /\ (c ∉ dom (mem (set_stack [LNumber 4; LNumber 3] Examples.point_world)))
    /\ stack w' = [LUserdata c; LNumber 4; LNumber 3]
    /\ userdata w' !! c = Some {| ud_size := 12; ud_meta := LTable 0 |}
    /\ mem w' !! c = Some Examples.a_point
    /\ (forall a, a ≠ c ->
          mem w' !! a
          = mem (set_stack [LNumber 4; LNumber 3] Examples.point_world) !! a
          /\ userdata w' !! a
             = userdata (set_stack [LNumber 4; LNumber 3] Examples.point_world) !! a)
    /\ tables w' = tables (set_stack [LNumber 4; LNumber 3] Examples.point_world)
    /\ registry w'
       = registry (set_stack [LNumber 4; LNumber 3] Examples.point_world).
Proof.
  apply (newInstance_constructs Examples.Point [TInt; TInt]
           (set_stack [LNumber 4; LNumber 3] Examples.point_world)
           [VInt 3; VInt 4] Examples.a_point 0).
  - reflexivity.
  - reflexivity.
  - vm_compute. reflexivity.
Defined.

(** ** Fields *)



(** C4, as the code has it: binding a field of const type writes exactly
    one entry, the getter under the name of the field, and appends exactly
    that getter to the store; no setter is made.  After the registration the
    entry of the field is its getter unless a later member took the name, and
    the entry ["set_" + name] is what the table held on entry unless another
    member is bound under that key. *)
Theorem const_field_getter_only T n CstrArgs fmap ms1 name t ms2 w r :
  is_const (f_type t) = true ->
  registry w !! c_str n = Some (LTable r) ->
  (forall w1 rest p,
     stack w1 = LTable r :: rest ->
     functions (statics_of w1 T) = Some p ->
     exists w2,
       addMember T name (MemVar t) w1 = Some (tt, w2)
       /\ table_at w2 r
          = <[c_str name := LClosure (wrap_getter T t)]> (table_at w1 r)
       /\ store_at w2 p = store_at w1 p ++ [wrap_getter T t])
  /\ exists w',
       Class_ctor T n CstrArgs fmap (ms1 ++ (name, MemVar t) :: ms2) w
       = Some (tt, w')
       /\ (c_str name ∉ member_keys T ms2 ->
           table_at w' r !! c_str name = Some (LClosure (wrap_getter T t)))
       /\ (c_str ("set_" +:+ name) ∉ member_keys T (ms1 ++ ms2) ->
           table_at w' r !! c_str ("set_" +:+ name)
           = table_at w r !! c_str ("set_" +:+ name)).
Proof.
  intros Hc Hr. split.
  - intros w1 rest p Hs Hf. eexists. split; [by eapply addMember_spec|].
    rewrite bind_entries_table, bind_entries_store. simpl. rewrite Hc. by split.
  - eexists. split; [by apply Class_ctor_spec|].
    rewrite registered_table, all_entries_app. simpl. rewrite Hc. simpl.
    split.
    + intros Hk. by apply insert_entries_last.
    + intros Hk. unfold member_keys in Hk.
      rewrite all_entries_app, fmap_app in Hk.
      apply not_elem_of_app in Hk as [Hk1 Hk2].
      rewrite insert_entries_notin.
      * by rewrite !lookup_insert_ne.
      * rewrite fmap_app. simpl. apply not_elem_of_app. split; [done|].
        apply not_elem_of_cons. split; [apply setter_key_ne|done].
Qed.

Lemma const_field_getter_only_witness :
  (forall w1 rest p,
     stack w1 = LTable 0 :: rest ->
     functions (statics_of w1 Examples.Point) = Some p ->
     exists w2,
       addMember Examples.Point "id" (MemVar Examples.field_id) w1 = Some (tt, w2)
       /\ table_at w2 0
          = <[c_str "id" := LClosure (wrap_getter Examples.Point Examples.field_id)]>
              (table_at w1 0)
       /\ store_at w2 p
          = store_at w1 p ++ [wrap_getter Examples.Point Examples.field_id])
  /\ exists w',
       Class_ctor Examples.Point "Point" [TInt; TInt] 0
         (Examples.point_members ++ [("id", MemVar Examples.field_id)])
         Examples.point_host = Some (tt, w')
       /\ (c_str "id" ∉ member_keys Examples.Point [] ->
           table_at w' 0 !! c_str "id"
           = Some (LClosure (wrap_getter Examples.Point Examples.field_id)))
       /\ (c_str ("set_" +:+ "id")
             ∉ member_keys Examples.Point (Examples.point_members ++ []) ->
           table_at w' 0 !! c_str ("set_" +:+ "id")
           = table_at Examples.point_host 0 !! c_str ("set_" +:+ "id")).
Proof.
  apply (const_field_getter_only Examples.Point "Point" [TInt; TInt] 0
           Examples.point_members "id" Examples.field_id []
           Examples.point_host 0).
  - reflexivity.
  - vm_compute. reflexivity.
Defined.

(** C4, as stated, fails: [id] is a const field and the members also hold
    a method named [set_id]; after the registration the table has an entry
    ["set_id"]. *)
Lemma const_field_setter_name_counterexample :
  is_const (f_type Examples.field_id) = true
  /\ exists w',
       Class_ctor Examples.Point "Point" [TInt; TInt] 0 Examples.id_members
         Examples.point_host = Some (tt, w')
       /\ table_at w' 0 !! c_str ("set_" +:+ "id")
          = Some (LClosure (wrap_func Examples.Point Examples.scale)).
Proof.
  split; [reflexivity|].
  eexists. split.
  - apply (Class_ctor_spec _ _ _ _ _ _ 0). vm_compute. reflexivity.
  - rewrite registered_table. vm_compute. reflexivity.
Qed.

(** ** Methods *)

(** C3, as the code has it: the wrapper of a const method is instantiated
    with [CppClass*], a pointer to a non-const instance, as its first
    parameter, exactly as the wrapper of a non-const method is; the declared
    parameters of the method follow and the return type is the method's. *)
Theorem const_method_wrapper T funcName func w r rest p :
  stack w = LTable r :: rest ->
  functions (statics_of w T) = Some p ->
  exists w' f,
    addMember T funcName (MemConstFunc func) w = Some (tt, w')
    /\ table_at w' r !! c_str funcName = Some (LClosure f)
    /\ fn_params f = self_ptr T :: cm_args func
    /\ fn_ret f = cm_ret func
    /\ (forall mfunc, m_args mfunc = cm_args func ->
          fn_params (wrap_func T mfunc) = fn_params f).
Proof.
  intros Hs Hf.
  exists (bind_entries r p (member_entries T funcName (MemConstFunc func)) w),
    (wrap_const_func T func).
  split; [by eapply addMember_spec|].
  rewrite bind_entries_table. simpl.
  split; [by rewrite lookup_insert_eq|].
  split; [done|]. split; [done|].
  intros mfunc Hm. simpl. by rewrite Hm.
Qed.

Lemma const_method_wrapper_witness :
  exists w' f,
    addMember Examples.Point "getSum" (MemConstFunc Examples.getSum)
      Examples.point_binding = Some (tt, w')
    /\ table_at w' 0 !! c_str "getSum" = Some (LClosure f)
    /\ fn_params f = self_ptr Examples.Point :: cm_args Examples.getSum
    /\ fn_ret f = cm_ret Examples.getSum
    /\ (forall mfunc, m_args mfunc = cm_args Examples.getSum ->
          fn_params (wrap_func Examples.Point mfunc) = fn_params f).
Proof.
  apply (const_method_wrapper Examples.Point "getSum" Examples.getSum
           Examples.point_binding 0 (stack Examples.point_host) 0).
  - reflexivity.
  - vm_compute. reflexivity.
Defined.

(** C3, as stated, fails: the first parameter of the wrapper bound for the
    const method [getSum] is [Point*], not [const Point*]. *)
Lemma const_method_wrapper_counterexample :
  exists w' f,
    addMember Examples.Point "getSum" (MemConstFunc Examples.getSum)
      Examples.point_binding = Some (tt, w')
    /\ table_at w' 0 !! "getSum" = Some (LClosure f)
    /\ head (fn_params f) = Some (TPtr (TClass 0))
    /\ head (fn_params f) <> Some (const_self_ptr Examples.Point).
Proof.
  exists (bind_entries 0 0
            (member_entries Examples.Point "getSum"
               (MemConstFunc Examples.getSum)) Examples.point_binding),
    (wrap_const_func Examples.Point Examples.getSum).
  split; [|split; [|split]].
  - apply (addMember_spec _ _ _ _ 0 (stack Examples.point_host) 0).
    + reflexivity.
    + vm_compute. reflexivity.
  - rewrite bind_entries_table. simpl. by rewrite lookup_insert_eq.
  - reflexivity.
  - discriminate.
Qed.

(** ** Name collisions *)

(** C8: the members are bound in the order in which they are supplied and
    each binding overwrites the entry of its key.  Whatever the earlier
    members bound under a name, once a member is bound under it and no later
    member writes that key, the entry is the callable of that member; the
    registration returns as usual, nothing reports the collision. *)
Theorem later_binding_wins T n CstrArgs fmap ms1 name mem ms2 w r :
  registry w !! c_str n = Some (LTable r) ->
  c_str name ∉ member_keys T ms2 ->
  exists w',
    Class_ctor T n CstrArgs fmap (ms1 ++ (name, mem) :: ms2) w = Some (tt, w')
    /\ table_at w' r !! c_str name = Some (LClosure (member_callable T mem)).
Proof.
  intros Hr Hk. eexists. split; [by apply Class_ctor_spec|].
  rewrite registered_table, all_entries_app. simpl.
  destruct (member_entries_last T name mem) as [pre ->].
  rewrite <- app_assoc. simpl. rewrite app_assoc.
  by apply insert_entries_last.
Qed.

Lemma later_binding_wins_witness :
  exists w',
    Class_ctor Examples.Point "Point" [TInt; TInt] 0
      ([("value", MemVar Examples.field_x)] ++ ("value", MemFunc Examples.scale) :: [])
      Examples.point_host = Some (tt, w')
    /\ table_at w' 0 !! c_str "value"
       = Some (LClosure (member_callable Examples.Point (MemFunc Examples.scale))).
Proof.
  apply (later_binding_wins Examples.Point "Point" [TInt; TInt] 0
           [("value", MemVar Examples.field_x)] "value"
           (MemFunc Examples.scale) [] Examples.point_host 0).
  - vm_compute. reflexivity.
  - simpl. apply not_elem_of_nil.
Defined.

(** ** The per-class registry *)





(** C7, as the code has it: the type tag is looked up by name, so two
    classes registered under one name have the same type tag.  The second
    registration writes into the table of the first: every entry it does not
    rebind stays visible, and [new] becomes the entry point of the second
    class.  What is kept per class is the static data: name, flag and store
    pointer of the first class are untouched by the second registration, and
    a store the second registration was not given is left alone. *)
Theorem same_name_shares_type_tag T1 T2 n S1 S2 f1 f2 ms1 ms2 w r :
  class_id T1 ≠ class_id T2 ->
  registry w !! c_str n = Some (LTable r) ->
  exists w1 w2,
    Class_ctor T1 n S1 f1 ms1 w = Some (tt, w1)
    /\ Class_ctor T2 n S2 f2 ms2 w1 = Some (tt, w2)
    /\ type_tag w2 T1 = LTable r
    /\ type_tag w2 T2 = LTable r
    /\ (forall k, k ∉ "__index" :: "new" :: member_keys T2 ms2 ->
          table_at w2 r !! k = table_at w1 r !! k)
    /\ ("new" ∉ member_keys T2 ms2 ->
        table_at w2 r !! "new" = Some (LCFunction (newInstance_ptr T2 S2)))
    /\ statics_of w2 T1
       = {| className := n; functions := Some f1; valid := true |}
    /\ statics_of w2 T2
       = {| className := n; functions := Some f2; valid := true |}
    /\ (f1 ≠ f2 -> store_at w2 f1 = store_at w1 f1).
Proof.
  intros Hid Hr.
  exists (registered T1 n S1 f1 ms1 r w),
    (registered T2 n S2 f2 ms2 r (registered T1 n S1 f1 ms1 r w)).
  assert (Hs1 : statics_of
                  (registered T2 n S2 f2 ms2 r (registered T1 n S1 f1 ms1 r w)) T1
                = {| className := n; functions := Some f1; valid := true |}).
  { rewrite registered_statics_other by done. apply registered_statics. }
  split; [by apply Class_ctor_spec|].
  split; [by apply Class_ctor_spec|].
  split; [unfold type_tag; rewrite Hs1; simpl; by rewrite Hr|].
  split; [unfold type_tag; rewrite registered_statics; simpl; by rewrite Hr|].
  split; [intros k Hk; by apply registered_lookup_other|].
  split; [apply registered_new_entry|].
  split; [done|]. split; [apply registered_statics|].
  intros Hf. by apply registered_other_store.
Qed.

Lemma same_name_shares_type_tag_witness :
  exists w1 w2,
    Class_ctor Examples.Point "Shape" [TInt; TInt] 0
      [("x", MemVar Examples.field_x)] (Examples.world_of [OpNewMetatable "Shape"])
    = Some (tt, w1)
    /\ Class_ctor Examples.Ticket "Shape" [TInt] 1
         [("serial", MemVar Examples.field_serial)] w1 = Some (tt, w2)
    /\ type_tag w2 Examples.Point = LTable 0
    /\ type_tag w2 Examples.Ticket = LTable 0
    /\ (forall k,
          k ∉ "__index" :: "new"
              :: member_keys Examples.Ticket
                   [("serial", MemVar Examples.field_serial)] ->
          table_at w2 0 !! k = table_at w1 0 !! k)
    /\ ("new" ∉ member_keys Examples.Ticket
                  [("serial", MemVar Examples.field_serial)] ->
        table_at w2 0 !! "new"
        = Some (LCFunction (newInstance_ptr Examples.Ticket [TInt])))
    /\ statics_of w2 Examples.Point
       = {| className := "Shape"; functions := Some 0%nat; valid := true |}
    /\ statics_of w2 Examples.Ticket
       = {| className := "Shape"; functions := Some 1%nat; valid := true |}
    /\ (0%nat ≠ 1%nat -> store_at w2 0 = store_at w1 0).
Proof.
  apply (same_name_shares_type_tag Examples.Point Examples.Ticket "Shape"
           [TInt; TInt] [TInt] 0 1 [("x", MemVar Examples.field_x)]
           [("serial", MemVar Examples.field_serial)]
           (Examples.world_of [OpNewMetatable "Shape"]) 0).
  - simpl. lia.
  - vm_compute. reflexivity.
Defined.

(** C7, as stated, fails: [Point] and [Ticket] are registered under the
    name ["Shape"], each with a store of its own and each after the host
    asked for the metatable of the name.  Both end up with the one table as
    their type tag, the getter installed for [Point] is found through the
    type tag of [Ticket] and the other way round, and [new] constructs a
    [Ticket]. *)
Lemma same_name_counterexample :
  run_ops Examples.shared_name_ops world_init
  = Some (tt, Examples.shared_name_world)
  /\ type_tag Examples.shared_name_world Examples.Point = LTable 0
  /\ type_tag Examples.shared_name_world Examples.Ticket = LTable 0
  /\ table_at Examples.shared_name_world 0 !! "x"
     = Some (LClosure (wrap_getter Examples.Point Examples.field_x))
  /\ table_at Examples.shared_name_world 0 !! "serial"
     = Some (LClosure (wrap_getter Examples.Ticket Examples.field_serial))
  /\ table_at Examples.shared_name_world 0 !! "new"
     = Some (LCFunction (newInstance_ptr Examples.Ticket [TInt])).
Proof.
  split; [vm_compute; reflexivity|].
  split; [vm_compute; reflexivity|].
  split; [vm_compute; reflexivity|].
  split; [vm_compute; reflexivity|].
  split; vm_compute; reflexivity.
Qed.

(** ** Copies *)




(** ** The scenario of the specification *)

(** [Point] is registered with the constructor [(int, int)], the field [x]
    and the method [getSum].  [Point.new(3, 4)] makes an instance with
    [x = 3] and [y = 4]; [set_x] with 10 followed by [x] gives 10, and
    [getSum] then gives 14. *)
Example point_scenario :
  let w := set_stack [LNumber 4; LNumber 3] Examples.point_world in
  let w1 := with_instance 0 12 (LTable 0) Examples.a_point w in
  let m2 := <[0%nat := <[0%nat := VInt 10]> Examples.a_point]> (mem w1) in
  table_at w 0 !! "new"
  = Some (LCFunction (newInstance_ptr Examples.Point [TInt; TInt]))
  /\ call_cfunction (newInstance_ptr Examples.Point [TInt; TInt]) w
     = Some (1, w1)
  /\ table_at w1 0 !! "set_x"
     = Some (LClosure (wrap_setter Examples.Point Examples.field_x))
  /\ table_at w1 0 !! "x"
     = Some (LClosure (wrap_getter Examples.Point Examples.field_x))
  /\ table_at w1 0 !! "getSum"
     = Some (LClosure (wrap_const_func Examples.Point Examples.getSum))
  /\ setter Examples.field_x [VPtr 0; VInt 10] (mem w1) = Some (VVoid, m2)
  /\ getter Examples.field_x [VPtr 0] m2 = Some (VInt 10, m2)
  /\ mem_fn_const Examples.getSum [VPtr 0] m2 = Some (VInt 14, m2).
Proof.
  cbv zeta.
  split; [vm_compute; reflexivity|].
  split; [vm_compute; reflexivity|].
  split; [vm_compute; reflexivity|].
  split; [vm_compute; reflexivity|].
  split; [vm_compute; reflexivity|].
  split; [vm_compute; reflexivity|].
  split; vm_compute; reflexivity.
Qed.

(** * Further properties of the registration mechanism *)

(** ** Writes to the metatable, once more *)

Lemma insert_entries_dom es (t : table) :
  dom (insert_entries es t) = dom t ∪ list_to_set es.*1.
Proof.
  revert t. induction es as [|[k f] es IH]; intros t; simpl.
  - by rewrite union_empty_r_L.
  - rewrite IH, dom_insert_L.
    by rewrite (comm_L (∪) {[k]}), <- (assoc_L (∪)).
Qed.

Lemma bind_entries_tables_lookup r p es w t :
  tables w !! r = Some t ->
  tables (bind_entries r p es w) !! r = Some (insert_entries es t).
Proof.
  revert w t. induction es as [|e es IH]; intros w t Ht; simpl; [done|].
  apply IH. simpl. rewrite lookup_insert_eq. unfold table_at. by rewrite Ht.
Qed.

Lemma registered_tables_lookup T n CstrArgs fmap mems r w :
  tables (registered T n CstrArgs fmap mems r w) !! r
  = Some (insert_entries (all_entries T mems)
            (<["new" := LCFunction (newInstance_ptr T CstrArgs)]>
               (<["__index" := LTable r]> (table_at w r)))).
Proof.
  unfold registered. simpl. apply bind_entries_tables_lookup.
  simpl. by rewrite lookup_insert_eq.
Qed.

Lemma all_entries_length T mems :
  length (all_entries T mems) = sum_list (callables_of <$> mems.*2).
Proof.
  induction mems as [|[n mem] mems IH]; simpl; [done|].
  rewrite length_app, IH. f_equal.
  destruct mem as [func|func|t]; simpl; try done.
  by destruct (is_const (f_type t)).
Qed.

Lemma member_callable_in_entries T name mem mems :
  (name, mem) ∈ mems -> member_callable T mem ∈ (all_entries T mems).*2.
Proof.
  induction mems as [|[n' mem'] mems IH]; intros Hin.
  - by apply elem_of_nil in Hin.
  - simpl. rewrite fmap_app. apply elem_of_app.
    apply elem_of_cons in Hin as [[= <- <-]|Hin]; [left|right; by apply IH].
    destruct (member_entries_last T name mem) as [pre ->].
    rewrite fmap_app. apply elem_of_app. right. simpl. apply list_elem_of_singleton.
    done.
Qed.

(** ** The constructor and the state around it *)

(** X1: the constructor returns exactly when the registry holds a table
    under the C string of the name.  [luaL_getmetatable] creates nothing, so
    with no entry, or with an entry that is not a table, the first raw set
    has no table to write to. *)
Theorem Class_ctor_returns_iff_metatable T n CstrArgs fmap mems w :
  is_Some (Class_ctor T n CstrArgs fmap mems w)
  <-> exists r, registry w !! c_str n = Some (LTable r).
Proof.
  split.
  - intros [[u w'] H]. by eapply Class_ctor_inv.
  - intros [r Hr]. rewrite (Class_ctor_spec _ _ _ _ _ _ r Hr). by eexists.
Qed.

(** X2: a registration that returns has touched one table, one store and
    the static members of one class.  The registry, the userdata blocks and
    the native memory are as before, and so are every other table, every
    other store and the static members of every other class. *)
Theorem registration_frame T n CstrArgs fmap mems w w' :
  Class_ctor T n CstrArgs fmap mems w = Some (tt, w') ->
  exists r,
    registry w !! c_str n = Some (LTable r)
    /\ registry w' = registry w
    /\ userdata w' = userdata w
    /\ mem w' = mem w
    /\ (forall r', r' ≠ r -> tables w' !! r' = tables w !! r')
    /\ (forall p, p ≠ fmap -> stores w' !! p = stores w !! p)
    /\ (forall T', class_id T' ≠ class_id T ->
          statics_of w' T' = statics_of w T').
Proof.
  intros H. destruct (Class_ctor_inv _ _ _ _ _ _ _ _ H) as [r Hr].
  rewrite (Class_ctor_spec _ _ _ _ _ _ r Hr) in H. injection H as <-.
  exists r. split; [done|]. split; [done|]. split; [done|]. split; [done|].
  split; [|split].
  - intros r' Hne. by apply registered_other_table.
  - intros p Hne. unfold registered. simpl.
    by rewrite bind_entries_other_store.
  - intros T' Hne. by apply registered_statics_other.
Qed.

Lemma registration_frame_witness :
  exists r,
    registry Examples.point_host !! c_str "Point" = Some (LTable r)
    /\ registry Examples.point_world = registry Examples.point_host
    /\ userdata Examples.point_world = userdata Examples.point_host
    /\ mem Examples.point_world = mem Examples.point_host
    /\ (forall r', r' ≠ r ->
          tables Examples.point_world !! r' = tables Examples.point_host !! r')
    /\ (forall p, p ≠ 0%nat ->
          stores Examples.point_world !! p = stores Examples.point_host !! p)
    /\ (forall T', class_id T' ≠ class_id Examples.Point ->
          statics_of Examples.point_world T'
          = statics_of Examples.point_host T').
Proof.
  apply (registration_frame Examples.Point "Point" [TInt; TInt] 0
           Examples.point_members Examples.point_host Examples.point_world).
  vm_compute. reflexivity.
Defined.

(** X3: registration only adds keys to the metatable.  The keys afterwards
    are the keys before together with [__index], [new] and the keys of the
    members, and an entry under any other key keeps its value. *)
Theorem registration_only_adds_keys T n CstrArgs fmap mems w r :
  registry w !! c_str n = Some (LTable r) ->
  exists w',
    Class_ctor T n CstrArgs fmap mems w = Some (tt, w')
    /\ dom (table_at w' r)
       = dom (table_at w r) ∪ {[ "__index"; "new" ]}
           ∪ list_to_set (member_keys T mems)
    /\ (forall k, k ∉ "__index" :: "new" :: member_keys T mems ->
          table_at w' r !! k = table_at w r !! k).
Proof.
  intros Hr. eexists. split; [by apply Class_ctor_spec|]. split.
  - rewrite registered_table, insert_entries_dom, !dom_insert_L.
    unfold member_keys. f_equal. apply leibniz_equiv, set_equiv. intros k.
    rewrite !elem_of_union. tauto.
  - intros k Hk. by apply registered_lookup_other.
Qed.

Lemma registration_only_adds_keys_witness :
  exists w',
    Class_ctor Examples.Point "Point" [TInt; TInt] 0 Examples.point_members
      Examples.point_host = Some (tt, w')
    /\ dom (table_at w' 0)
       = dom (table_at Examples.point_host 0) ∪ {[ "__index"; "new" ]}
           ∪ list_to_set (member_keys Examples.Point Examples.point_members)
    /\ (forall k,
          k ∉ "__index" :: "new"
              :: member_keys Examples.Point Examples.point_members ->
          table_at w' 0 !! k = table_at Examples.point_host 0 !! k).
Proof.
  apply (registration_only_adds_keys Examples.Point "Point" [TInt; TInt] 0
           Examples.point_members Examples.point_host 0).
  vm_compute. reflexivity.
Defined.

(** X4: registration appends to the store it was given one callable per
    method and per const field and two per non-const field, in the order of
    the members, behind what the store held.  Nothing is taken out: the
    callable of every member is in the store afterwards, also when a later
    member took its place in the table. *)
Theorem registration_appends_callables T n CstrArgs fmap mems w r :
  registry w !! c_str n = Some (LTable r) ->
  exists w',
    Class_ctor T n CstrArgs fmap mems w = Some (tt, w')
    /\ store_at w' fmap = store_at w fmap ++ (all_entries T mems).*2
    /\ length (store_at w' fmap)
       = (length (store_at w fmap) + sum_list (callables_of <$> mems.*2))%nat
    /\ (forall name mem,
          (name, mem) ∈ mems -> member_callable T mem ∈ store_at w' fmap).
Proof.
  intros Hr. eexists. split; [by apply Class_ctor_spec|].
  rewrite registered_store. split; [done|]. split.
  - by rewrite length_app, length_fmap, all_entries_length.
  - intros name mem Hin. apply elem_of_app. right.
    by eapply member_callable_in_entries.
Qed.

Lemma registration_appends_callables_witness :
  exists w',
    Class_ctor Examples.Point "Point" [TInt; TInt] 0 Examples.colliding_members
      Examples.point_host = Some (tt, w')
    /\ store_at w' 0
       = store_at Examples.point_host 0
         ++ (all_entries Examples.Point Examples.colliding_members).*2
    /\ length (store_at w' 0)
       = (length (store_at Examples.point_host 0)
          + sum_list (callables_of <$> Examples.colliding_members.*2))%nat
    /\ (forall name mem,
          (name, mem) ∈ Examples.colliding_members ->
          member_callable Examples.Point mem ∈ store_at w' 0).
Proof.
  apply (registration_appends_callables Examples.Point "Point" [TInt; TInt] 0
           Examples.colliding_members Examples.point_host 0).
  vm_compute. reflexivity.
Defined.

(** X5: unless a member writes the key, the constructor leaves the metatable
    as its own [__index] and the entry point of the registered signature
    under [new], and the metatable is the type tag of the class. *)
Theorem registration_wires_metatable T n CstrArgs fmap mems w r :
  registry w !! c_str n = Some (LTable r) ->
  "__index" ∉ member_keys T mems ->
  "new" ∉ member_keys T mems ->
  exists w',
    Class_ctor T n CstrArgs fmap mems w = Some (tt, w')
    /\ table_at w' r !! "__index" = Some (LTable r)
    /\ table_at w' r !! "new" = Some (LCFunction (newInstance_ptr T CstrArgs))
    /\ type_tag w' T = LTable r.
Proof.
  intros Hr Hi Hn. eexists. split; [by apply Class_ctor_spec|].
  split; [|split].
  - rewrite registered_table, insert_entries_notin by done.
    by rewrite lookup_insert_ne, lookup_insert_eq.
  - by apply registered_new_entry.
  - by apply registered_type_tag.
Qed.

Lemma registration_wires_metatable_witness :
  exists w',
    Class_ctor Examples.Point "Point" [TInt; TInt] 0 Examples.point_members
      Examples.point_host = Some (tt, w')
    /\ table_at w' 0 !! "__index" = Some (LTable 0)
    /\ table_at w' 0 !! "new"
       = Some (LCFunction (newInstance_ptr Examples.Point [TInt; TInt]))
    /\ type_tag w' Examples.Point = LTable 0.
Proof.
  apply (registration_wires_metatable Examples.Point "Point" [TInt; TInt] 0
           Examples.point_members Examples.point_host 0).
  - vm_compute. reflexivity.
  - vm_compute. intros H. by repeat (apply elem_of_cons in H as [H|H]; [discriminate|]);
      apply elem_of_nil in H.
  - vm_compute. intros H. by repeat (apply elem_of_cons in H as [H|H]; [discriminate|]);
      apply elem_of_nil in H.
Defined.

(** ** Fields, after the whole registration *)

(** X6: when a non-const field is among the members and no later member
    writes its two keys, the registration leaves its setter under
    ["set_" + name] and its getter under the name, whatever the earlier
    members bound there. *)
Theorem registered_field_accessors T n CstrArgs fmap ms1 name t ms2 w r :
  is_const (f_type t) = false ->
  registry w !! c_str n = Some (LTable r) ->
  c_str ("set_" +:+ name) ∉ member_keys T ms2 ->
  c_str name ∉ member_keys T ms2 ->
  exists w',
    Class_ctor T n CstrArgs fmap (ms1 ++ (name, MemVar t) :: ms2) w
    = Some (tt, w')
    /\ table_at w' r !! c_str ("set_" +:+ name)
       = Some (LClosure (wrap_setter T t))
    /\ table_at w' r !! c_str name = Some (LClosure (wrap_getter T t)).
Proof.
  intros Hc Hr Hs Hg. eexists. split; [by apply Class_ctor_spec|].
  rewrite registered_table, all_entries_app. simpl. rewrite Hc. simpl.
  split.
  - apply insert_entries_last. simpl.
    apply not_elem_of_cons. split; [apply setter_key_ne|done].
  - rewrite cons_middle, app_assoc. by apply insert_entries_last.
Qed.

Lemma registered_field_accessors_witness :
  exists w',
    Class_ctor Examples.Point "Point" [TInt; TInt] 0
      ([("getSum", MemConstFunc Examples.getSum)]
       ++ ("x", MemVar Examples.field_x) :: [])
      Examples.point_host = Some (tt, w')
    /\ table_at w' 0 !! c_str ("set_" +:+ "x")
       = Some (LClosure (wrap_setter Examples.Point Examples.field_x))
    /\ table_at w' 0 !! c_str "x"
       = Some (LClosure (wrap_getter Examples.Point Examples.field_x)).
Proof.
  apply (registered_field_accessors Examples.Point "Point" [TInt; TInt] 0
           [("getSum", MemConstFunc Examples.getSum)] "x" Examples.field_x []
           Examples.point_host 0).
  - reflexivity.
  - vm_compute. reflexivity.
  - simpl. apply not_elem_of_nil.
  - simpl. apply not_elem_of_nil.
Defined.

(** ** The closures of a field *)





(** ** Registering again *)

(** X9: running the same registration a second time is not guarded
    against.  The static members and every other table stay as the first run
    left them; the metatable keeps its keys, and keeps its entries under every
    key that is not a key of a member, [__index] and [new] included; the
    members are bound once more, and their callables are appended to the
    store a second time. *)
Theorem registration_twice T n CstrArgs fmap mems w r :
  registry w !! c_str n = Some (LTable r) ->
  exists w1 w2,
    Class_ctor T n CstrArgs fmap mems w = Some (tt, w1)
    /\ Class_ctor T n CstrArgs fmap mems w1 = Some (tt, w2)
    /\ statics w2 = statics w1
    /\ (forall r', r' ≠ r -> tables w2 !! r' = tables w1 !! r')
    /\ dom (table_at w2 r) = dom (table_at w1 r)
    /\ (forall k, k ∉ member_keys T mems ->
          table_at w2 r !! k = table_at w1 r !! k)
    /\ store_at w1 fmap = store_at w fmap ++ (all_entries T mems).*2
    /\ store_at w2 fmap
       = store_at w fmap ++ (all_entries T mems).*2 ++ (all_entries T mems).*2.
Proof.
  intros Hr.
  exists (registered T n CstrArgs fmap mems r w),
    (registered T n CstrArgs fmap mems r (registered T n CstrArgs fmap mems r w)).
  split; [by apply Class_ctor_spec|]. split; [by apply Class_ctor_spec|].
  split; [|split; [|split; [|split; [|split]]]].
  - unfold registered at 1. simpl. by rewrite insert_insert_eq.
  - intros r' Hne. by apply registered_other_table.
  - rewrite (registered_table T n CstrArgs fmap mems r (registered _ _ _ _ _ _ _)).
    rewrite insert_entries_dom, !dom_insert_L.
    rewrite (registered_table T n CstrArgs fmap mems r w).
    rewrite insert_entries_dom, !dom_insert_L.
    apply leibniz_equiv, set_equiv. intros k.
    rewrite !elem_of_union. tauto.
  - intros k Hk.
    rewrite (registered_table T n CstrArgs fmap mems r (registered _ _ _ _ _ _ _)).
    rewrite insert_entries_notin by done.
    rewrite (registered_table T n CstrArgs fmap mems r w).
    rewrite (insert_entries_notin _ _ k) by done.
    destruct (decide (k = "new")) as [->|Hn]; [by rewrite !lookup_insert_eq|].
    rewrite !(lookup_insert_ne _ "new") by done.
    destruct (decide (k = "__index")) as [->|Hi]; [by rewrite !lookup_insert_eq|].
    rewrite !(lookup_insert_ne _ "__index") by done.
    rewrite insert_entries_notin by done.
    by rewrite !lookup_insert_ne.
  - apply registered_store.
  - by rewrite !registered_store, <- app_assoc.
Qed.

Lemma registration_twice_witness :
  exists w1 w2,
    Class_ctor Examples.Point "Point" [TInt; TInt] 0 Examples.point_members
      Examples.point_host = Some (tt, w1)
    /\ Class_ctor Examples.Point "Point" [TInt; TInt] 0 Examples.point_members
         w1 = Some (tt, w2)
    /\ statics w2 = statics w1
    /\ (forall r', r' ≠ 0%nat -> tables w2 !! r' = tables w1 !! r')
    /\ dom (table_at w2 0) = dom (table_at w1 0)
    /\ (forall k, k ∉ member_keys Examples.Point Examples.point_members ->
          table_at w2 0 !! k = table_at w1 0 !! k)
    /\ store_at w1 0
       = store_at Examples.point_host 0
         ++ (all_entries Examples.Point Examples.point_members).*2
    /\ store_at w2 0
       = store_at Examples.point_host 0
         ++ (all_entries Examples.Point Examples.point_members).*2
         ++ (all_entries Examples.Point Examples.point_members).*2.
Proof.
  apply (registration_twice Examples.Point "Point" [TInt; TInt] 0
           Examples.point_members Examples.point_host 0).
  vm_compute. reflexivity.
Defined.

(** X10: registering a class again under a second name, whose metatable is
    another table, moves the class to the second name.  [getName] returns
    the second name, the type tag is the second metatable and the store
    pointer is the second store; the first metatable keeps every entry it
    had, and the first store is left alone when the second store is another
    one. *)
Theorem registration_under_second_name
  T n1 n2 S1 S2 f1 f2 ms1 ms2 w r1 r2 :
  registry w !! c_str n1 = Some (LTable r1) ->
  registry w !! c_str n2 = Some (LTable r2) ->
  r1 ≠ r2 ->
  exists w1 w2,
    Class_ctor T n1 S1 f1 ms1 w = Some (tt, w1)
    /\ Class_ctor T n2 S2 f2 ms2 w1 = Some (tt, w2)
    /\ getName T w2 = Some (n2, w2)
    /\ type_tag w2 T = LTable r2
    /\ functions (statics_of w2 T) = Some f2
    /\ tables w2 !! r1 = tables w1 !! r1
    /\ (f1 ≠ f2 -> store_at w2 f1 = store_at w1 f1).
Proof.
  intros H1 H2 Hne.
  exists (registered T n1 S1 f1 ms1 r1 w),
    (registered T n2 S2 f2 ms2 r2 (registered T n1 S1 f1 ms1 r1 w)).
  split; [by apply Class_ctor_spec|]. split; [by apply Class_ctor_spec|].
  split; [|split; [|split; [|split]]].
  - unfold getName, get_className. by rewrite registered_statics.
  - by apply registered_type_tag.
  - by rewrite registered_statics.
  - by apply registered_other_table.
  - intros Hf. by apply registered_other_store.
Qed.

Lemma registration_under_second_name_witness :
  exists w1 w2,
    Class_ctor Examples.Point "Point" [TInt; TInt] 0 Examples.point_members
      Examples.two_names_host = Some (tt, w1)
    /\ Class_ctor Examples.Point "Dot" [TInt; TInt] 1
         [("y", MemVar Examples.field_y)] w1 = Some (tt, w2)
    /\ getName Examples.Point w2 = Some ("Dot", w2)
    /\ type_tag w2 Examples.Point = LTable 1
    /\ functions (statics_of w2 Examples.Point) = Some 1%nat
    /\ tables w2 !! 0%nat = tables w1 !! 0%nat
    /\ (0%nat ≠ 1%nat -> store_at w2 0 = store_at w1 0).
Proof.
  apply (registration_under_second_name Examples.Point "Point" "Dot"
           [TInt; TInt] [TInt; TInt] 0 1 Examples.point_members
           [("y", MemVar Examples.field_y)] Examples.two_names_host 0 1).
  - vm_compute. reflexivity.
  - vm_compute. reflexivity.
  - lia.
Defined.

(** ** Instances *)


(** X11: a class whose name has no table in the registry still gets its
    instances: [newInstance] constructs the object in a fresh block and
    returns it, and the block carries no metatable.  This is also what
    happens for a class that was never registered, when the registry has no
    entry under the empty name. *)
Theorem newInstance_without_metatable T CstrArgs w args obj :
  getTuple CstrArgs w = Some (args, w) ->
  class_construct T args = Some obj ->
  type_tag w T = LNil ->
  exists c w',
    newInstance T CstrArgs w = Some (1, w')
    /\ stack w' = LUserdata c :: stack w
    /\ userdata w' !! c = Some {| ud_size := class_sizeof T; ud_meta := LNil |}
    /\ mem w' !! c = Some obj.
Proof.
  intros Hd Hc Ht. apply getTuple_reads in Hd as [Hd _].
  eexists _, _. split.
  - apply (newInstance_spec T CstrArgs w args obj LNil); auto.
  - simpl. by rewrite !lookup_insert_eq.
Qed.

Lemma newInstance_without_metatable_witness :
  exists c w',
    newInstance Examples.Point [TInt; TInt]
      (set_stack [LNumber 4; LNumber 3] world_init) = Some (1, w')
    /\ stack w' = [LUserdata c; LNumber 4; LNumber 3]
    /\ userdata w' !! c = Some {| ud_size := 12; ud_meta := LNil |}
    /\ mem w' !! c = Some Examples.a_point.
Proof.
  apply (newInstance_without_metatable Examples.Point [TInt; TInt]
           (set_stack [LNumber 4; LNumber 3] world_init)
           [VInt 3; VInt 4] Examples.a_point).
  - reflexivity.
  - reflexivity.
  - reflexivity.
Defined.



(** X13: registration followed by [new].  After a class is registered with a
    member that no later member overrides, and with no member written under
    [__index], the instance [newInstance] makes carries the metatable of the
    class; that metatable is its own [__index] and holds the callable of the
    member under the member's name. *)
Theorem registered_member_reachable
  T n CstrArgs fmap ms1 name mb ms2 w r frame args obj :
  registry w !! c_str n = Some (LTable r) ->
  "__index" ∉ member_keys T (ms1 ++ (name, mb) :: ms2) ->
  c_str name ∉ member_keys T ms2 ->
  decode CstrArgs frame = Some args ->
  class_construct T args = Some obj ->
  exists w1 c w2,
    Class_ctor T n CstrArgs fmap (ms1 ++ (name, mb) :: ms2) w = Some (tt, w1)
    /\ newInstance T CstrArgs (set_stack (rev frame) w1) = Some (1, w2)
    /\ stack w2 = LUserdata c :: rev frame
    /\ userdata w2 !! c
       = Some {| ud_size := class_sizeof T; ud_meta := LTable r |}
    /\ mem w2 !! c = Some obj
    /\ table_at w2 r !! "__index" = Some (LTable r)
    /\ table_at w2 r !! c_str name = Some (LClosure (member_callable T mb)).
Proof.
  intros Hr Hi Hk Hd Hc.
  set (w1 := registered T n CstrArgs fmap (ms1 ++ (name, mb) :: ms2) r w).
  assert (Ht : type_tag (set_stack (rev frame) w1) T = LTable r)
    by (by apply registered_type_tag).
  exists w1. eexists _, _.
  split; [by apply Class_ctor_spec|]. split.
  - apply (newInstance_spec T CstrArgs _ args obj (LTable r)); eauto.
    simpl. by rewrite rev_involutive.
  - simpl. rewrite !lookup_insert_eq. repeat split.
    + change (table_at w1 r !! "__index" = Some (LTable r)).
      unfold w1. rewrite registered_table, insert_entries_notin by done.
      by rewrite lookup_insert_ne, lookup_insert_eq.
    + change (table_at w1 r !! c_str name
              = Some (LClosure (member_callable T mb))).
      unfold w1. rewrite registered_table, all_entries_app. simpl.
      destruct (member_entries_last T name mb) as [pre ->].
      rewrite <- app_assoc. simpl. rewrite app_assoc.
      by apply insert_entries_last.
Qed.

Lemma registered_member_reachable_witness :
  exists w1 c w2,
    Class_ctor Examples.Point "Point" [TInt; TInt] 0
      ([("x", MemVar Examples.field_x)]
       ++ ("getSum", MemConstFunc Examples.getSum) :: [])
      Examples.point_host = Some (tt, w1)
    /\ newInstance Examples.Point [TInt; TInt]
         (set_stack (rev [LNumber 3; LNumber 4]) w1) = Some (1, w2)
    /\ stack w2 = LUserdata c :: rev [LNumber 3; LNumber 4]
    /\ userdata w2 !! c = Some {| ud_size := 12; ud_meta := LTable 0 |}
    /\ mem w2 !! c = Some Examples.a_point
    /\ table_at w2 0 !! "__index" = Some (LTable 0)
    /\ table_at w2 0 !! c_str "getSum"
       = Some (LClosure
                 (member_callable Examples.Point
                    (MemConstFunc Examples.getSum))).
Proof.
  apply (registered_member_reachable Examples.Point "Point" [TInt; TInt] 0
           [("x", MemVar Examples.field_x)] "getSum"
           (MemConstFunc Examples.getSum) [] Examples.point_host 0
           [LNumber 3; LNumber 4] [VInt 3; VInt 4] Examples.a_point).
  - vm_compute. reflexivity.
  - vm_compute. intros H.
    by repeat (apply elem_of_cons in H as [H|H]; [discriminate|]);
      apply elem_of_nil in H.
  - simpl. apply not_elem_of_nil.
  - reflexivity.
  - reflexivity.
Defined.

(** ** One process, several Lua states *)

(** X14: the static members of [Class] belong to the process, not to a
    [lua_State].  After a class is registered in one state, [isValid] and
    [getName] report it whatever state is at hand, and [newInstance] called
    on another state, whose registry has no entry under the name, returns an
    instance that carries no metatable. *)
Theorem statics_shared_between_states
  T n CstrArgs fmap mems w r L args obj :
  registry w !! c_str n = Some (LTable r) ->
  registry L !! c_str n = None ->
  getTuple CstrArgs L = Some (args, L) ->
  class_construct T args = Some obj ->
  exists w1 c w2,
    Class_ctor T n CstrArgs fmap mems w = Some (tt, w1)
    /\ isValid T (in_state L w1) = Some (true, in_state L w1)
    /\ getName T (in_state L w1) = Some (n, in_state L w1)
    /\ newInstance T CstrArgs (in_state L w1) = Some (1, w2)
    /\ stack w2 = LUserdata c :: stack L
    /\ userdata w2 !! c = Some {| ud_size := class_sizeof T; ud_meta := LNil |}
    /\ mem w2 !! c = Some obj.
Proof.
  intros Hr HL Hd Hc. apply getTuple_reads in Hd as [Hd _].
  set (w1 := registered T n CstrArgs fmap mems r w).
  assert (Hs : statics_of (in_state L w1) T
               = {| className := n; functions := Some fmap; valid := true |})
    by apply (registered_statics T n CstrArgs fmap mems r w).
  exists w1. eexists _, _.
  split; [by apply Class_ctor_spec|].
  split; [unfold isValid; by rewrite Hs|].
  split; [unfold getName, get_className; by rewrite Hs|].
  split.
  - apply (newInstance_spec T CstrArgs (in_state L w1) args obj LNil); auto.
    unfold type_tag. rewrite Hs. simpl. by rewrite HL.
  - simpl. by rewrite !lookup_insert_eq.
Qed.

Lemma statics_shared_between_states_witness :
  exists w1 c w2,
    Class_ctor Examples.Point "Point" [TInt; TInt] 0 Examples.point_members
      Examples.point_host = Some (tt, w1)
    /\ isValid Examples.Point
         (in_state (set_stack [LNumber 4; LNumber 3] world_init) w1)
       = Some (true, in_state (set_stack [LNumber 4; LNumber 3] world_init) w1)
    /\ getName Examples.Point
         (in_state (set_stack [LNumber 4; LNumber 3] world_init) w1)
       = Some ("Point",
               in_state (set_stack [LNumber 4; LNumber 3] world_init) w1)
    /\ newInstance Examples.Point [TInt; TInt]
         (in_state (set_stack [LNumber 4; LNumber 3] world_init) w1)
       = Some (1, w2)
    /\ stack w2
       = LUserdata c :: stack (set_stack [LNumber 4; LNumber 3] world_init)
    /\ userdata w2 !! c = Some {| ud_size := 12; ud_meta := LNil |}
    /\ mem w2 !! c = Some Examples.a_point.
Proof.
  apply (statics_shared_between_states Examples.Point "Point" [TInt; TInt] 0
           Examples.point_members Examples.point_host 0
           (set_stack [LNumber 4; LNumber 3] world_init)
           [VInt 3; VInt 4] Examples.a_point).
  - vm_compute. reflexivity.
  - reflexivity.
  - reflexivity.
  - reflexivity.
Defined.

(** ** Names with an embedded NUL *)

Lemma bind_entries_tables_ext r p es w w' :
  tables w = tables w' ->
  tables (bind_entries r p es w) = tables (bind_entries r p es w').
Proof.
  revert w w'. induction es as [|e es IH]; intros w w' H; simpl; [done|].
  apply IH. simpl. unfold table_at. by rewrite H.
Qed.

Lemma bind_entries_stores_ext r p es w w' :
  stores w = stores w' ->
  stores (bind_entries r p es w) = stores (bind_entries r p es w').
Proof.
  revert w w'. induction es as [|e es IH]; intros w w' H; simpl; [done|].
  apply IH. simpl. by rewrite H.
Qed.

(** X15: Lua is given the names as C strings.  Two names that agree up to
    their first NUL select the same metatable, and registering under one or
    the other leaves the same tables and the same store; only [getName]
    tells them apart, since it returns the name in full. *)
Theorem names_agree_up_to_NUL T n n' CstrArgs fmap mems w r :
  c_str n' = c_str n ->
  registry w !! c_str n = Some (LTable r) ->
  exists w1 w1',
    Class_ctor T n CstrArgs fmap mems w = Some (tt, w1)
    /\ Class_ctor T n' CstrArgs fmap mems w = Some (tt, w1')
    /\ tables w1' = tables w1
    /\ stores w1' = stores w1
    /\ type_tag w1' T = type_tag w1 T
    /\ getName T w1 = Some (n, w1)
    /\ getName T w1' = Some (n', w1').
Proof.
  intros Hn Hr.
  exists (registered T n CstrArgs fmap mems r w),
    (registered T n' CstrArgs fmap mems r w).
  split; [by apply Class_ctor_spec|].
  split; [apply Class_ctor_spec; by rewrite Hn|].
  split; [by apply bind_entries_tables_ext|].
  split; [by apply bind_entries_stores_ext|].
  split.
  - rewrite !registered_type_tag; [done|done|by rewrite Hn].
  - unfold getName, get_className. by rewrite !registered_statics.
Qed.

Lemma names_agree_up_to_NUL_witness :
  exists w1 w1',
    Class_ctor Examples.Point "Point" [TInt; TInt] 0 Examples.point_members
      Examples.point_host = Some (tt, w1)
    /\ Class_ctor Examples.Point Examples.nul_name [TInt; TInt] 0
         Examples.point_members Examples.point_host = Some (tt, w1')
    /\ tables w1' = tables w1
    /\ stores w1' = stores w1
    /\ type_tag w1' Examples.Point = type_tag w1 Examples.Point
    /\ getName Examples.Point w1 = Some ("Point", w1)
    /\ getName Examples.Point w1' = Some (Examples.nul_name, w1').
Proof.
  apply (names_agree_up_to_NUL Examples.Point "Point" Examples.nul_name
           [TInt; TInt] 0 Examples.point_members Examples.point_host 0).
  - reflexivity.
  - vm_compute. reflexivity.
Defined.

(** ** Who owns what the table refers to *)

Lemma last_occurrence (k : string) (es : list (string * CppFunction)) :
  k ∈ es.*1 ->
  exists es1 f es2, es = es1 ++ (k, f) :: es2 /\ k ∉ es2.*1.
Proof.
  induction es as [|[k' f'] es IH]; intros Hin.
  - by apply elem_of_nil in Hin.
  - destruct (decide (k ∈ es.*1)) as [Hes|Hes].
    + destruct (IH Hes) as (es1 & f & es2 & -> & Hk).
      by exists ((k', f') :: es1), f, es2.
    + simpl in Hin. apply elem_of_cons in Hin as [->|Hin]; [|done].
      by exists [], f', es.
Qed.

(** X16: every key of a member holds, after the registration, a closure
    whose callable is in the store the registration was given: what the
    metatable refers to under the keys of the members is owned by that
    store. *)
Theorem bound_closures_are_owned T n CstrArgs fmap mems w r :
  registry w !! c_str n = Some (LTable r) ->
  exists w',
    Class_ctor T n CstrArgs fmap mems w = Some (tt, w')
    /\ forall k,
         k ∈ member_keys T mems ->
         exists f, table_at w' r !! k = Some (LClosure f)
                   /\ f ∈ store_at w' fmap.
Proof.
  intros Hr. eexists. split; [by apply Class_ctor_spec|].
  intros k Hk. unfold member_keys in Hk.
  destruct (last_occurrence k _ Hk) as (es1 & f & es2 & He & Hk2).
  exists f. rewrite registered_table, registered_store, He. split.
  - by apply insert_entries_last.
  - apply elem_of_app. right. rewrite fmap_app. apply elem_of_app. right.
    simpl. apply elem_of_cons. by left.
Qed.

Lemma bound_closures_are_owned_witness :
  exists w',
    Class_ctor Examples.Point "Point" [TInt; TInt] 0 Examples.colliding_members
      Examples.point_host = Some (tt, w')
    /\ forall k,
         k ∈ member_keys Examples.Point Examples.colliding_members ->
         exists f, table_at w' 0 !! k = Some (LClosure f)
                   /\ f ∈ store_at w' 0.
Proof.
  apply (bound_closures_are_owned Examples.Point "Point" [TInt; TInt] 0
           Examples.colliding_members Examples.point_host 0).
  vm_compute. reflexivity.
Defined.

(** ** Copies and their source *)



(** ** Registrations of different classes *)

(** X18: two classes registered under names with different metatables do
    not interfere, in either order: the tables and the static members come
    out the same, and so does every store when the two registrations were
    given different stores. *)
Theorem registrations_commute T1 T2 n1 n2 S1 S2 f1 f2 ms1 ms2 w r1 r2 :
  class_id T1 ≠ class_id T2 ->
  r1 ≠ r2 ->
  registry w !! c_str n1 = Some (LTable r1) ->
  registry w !! c_str n2 = Some (LTable r2) ->
  exists a ab b ba,
    Class_ctor T1 n1 S1 f1 ms1 w = Some (tt, a)
    /\ Class_ctor T2 n2 S2 f2 ms2 a = Some (tt, ab)
    /\ Class_ctor T2 n2 S2 f2 ms2 w = Some (tt, b)
    /\ Class_ctor T1 n1 S1 f1 ms1 b = Some (tt, ba)
    /\ tables ab = tables ba
    /\ statics ab = statics ba
    /\ (f1 ≠ f2 -> forall p, store_at ab p = store_at ba p).
Proof.
  intros Hid Hr H1 H2.
  exists (registered T1 n1 S1 f1 ms1 r1 w),
    (registered T2 n2 S2 f2 ms2 r2 (registered T1 n1 S1 f1 ms1 r1 w)),
    (registered T2 n2 S2 f2 ms2 r2 w),
    (registered T1 n1 S1 f1 ms1 r1 (registered T2 n2 S2 f2 ms2 r2 w)).
  split; [by apply Class_ctor_spec|]. split; [by apply Class_ctor_spec|].
  split; [by apply Class_ctor_spec|]. split; [by apply Class_ctor_spec|].
  split; [|split].
  - apply map_eq. intros r'.
    destruct (decide (r' = r1)) as [->|Hn1].
    + rewrite registered_other_table by done.
      rewrite !registered_tables_lookup. do 4 f_equal.
      unfold table_at. by rewrite registered_other_table.
    + destruct (decide (r' = r2)) as [->|Hn2].
      * rewrite (registered_other_table T1) by done.
        rewrite !registered_tables_lookup. do 4 f_equal.
        unfold table_at. by rewrite registered_other_table.
      * by rewrite !registered_other_table.
  - unfold registered. simpl. by apply insert_insert_ne.
  - intros Hf p.
    destruct (decide (p = f1)) as [->|Hp1].
    + rewrite (registered_other_store T2) by done.
      rewrite !registered_store. f_equal. by rewrite registered_other_store.
    + destruct (decide (p = f2)) as [->|Hp2].
      * rewrite (registered_other_store T1) by done.
        rewrite !registered_store. f_equal. by rewrite registered_other_store.
      * by rewrite !registered_other_store.
Qed.

Lemma registrations_commute_witness :
  exists a ab b ba,
    Class_ctor Examples.Point "Point" [TInt; TInt] 0 Examples.point_members
      Examples.two_names_host = Some (tt, a)
    /\ Class_ctor Examples.Ticket "Dot" [TInt] 1
         [("serial", MemVar Examples.field_serial)] a = Some (tt, ab)
    /\ Class_ctor Examples.Ticket "Dot" [TInt] 1
         [("serial", MemVar Examples.field_serial)] Examples.two_names_host
       = Some (tt, b)
    /\ Class_ctor Examples.Point "Point" [TInt; TInt] 0 Examples.point_members
         b = Some (tt, ba)
    /\ tables ab = tables ba
    /\ statics ab = statics ba
    /\ (0%nat ≠ 1%nat -> forall p, store_at ab p = store_at ba p).
Proof.
  apply (registrations_commute Examples.Point Examples.Ticket "Point" "Dot"
           [TInt; TInt] [TInt] 0 1 Examples.point_members
           [("serial", MemVar Examples.field_serial)]
           Examples.two_names_host 0 1).
  - simpl. lia.
  - lia.
  - vm_compute. reflexivity.
  - vm_compute. reflexivity.
Defined.
